(** * partd.numpy: typed arrays on top of a key-addressed byte store

    A shallow embedding of [partd/numpy.py] and the properties of its
    key extension, type descriptor codec, memoised metadata lookup, bulk
    store/load functions and the [PartdNumpy] wrapper object. *)

From Stdlib Require Import Ascii String.
From stdpp Require Import base option list strings countable gmap.

#[local] Open Scope string_scope.
#[local] Open Scope list_scope.
#[local] Open Scope stdpp_scope.

(** ** Python values that the module handles *)

(** Exceptions that abort a call.  [NumpyError] stands for the
    [TypeError] or [ValueError] with which numpy rejects an argument;
    [Unsupported] marks an input on which the model of an external
    library says nothing. *)
Inductive exn : Type :=
  | IndexError
  | TypeError
  | NameError (name : string)
  | KeyError
  | NumpyError
  | Unsupported.

(** Outcome of a call that may raise. *)
Inductive result (A : Type) : Type :=
  | Ok (a : A)
  | Raise (e : exn).
Arguments Ok {A} a.
Arguments Raise {A} e.

Definition rbind {A B} (r : result A) (f : A -> result B) : result B :=
  match r with
  | Ok a => f a
  | Raise e => Raise e
  end.

(** [[f(x) for x in xs]] : the first raising element aborts the
    comprehension. *)
Fixpoint rmap {A B} (f : A -> result B) (xs : list A) : result (list B) :=
  match xs with
  | [] => Ok []
  | x :: xs' =>
      rbind (f x) (fun y => rbind (rmap f xs') (fun ys => Ok (y :: ys)))
  end.

(** A Python object that is neither a [str] nor a [tuple]: an opaque
    identity together with what [str(obj)] returns for it. *)
Record pyobject : Type := PyObject { py_id : N; py_str : string }.

(** Keys of the store: a string, a tuple of keys, or any other object. *)
#[local] Unset Elimination Schemes.
Inductive key : Type :=
  | KStr (s : string)
  | KTuple (ks : list key)
  | KOther (o : pyobject).
#[local] Set Elimination Schemes.

(** Induction over keys that reaches the components of a tuple. *)
Fixpoint key_ind (P : key -> Prop)
    (Hstr : forall s, P (KStr s))
    (Htuple : forall ks, Forall P ks -> P (KTuple ks))
    (Hother : forall o, P (KOther o)) (k : key) : P k :=
  match k with
  | KStr s => Hstr s
  | KTuple ks =>
      Htuple ks
        ((fix go (l : list key) : Forall P l :=
            match l with
            | [] => Forall_nil_2 P
            | k0 :: l' =>
                Forall_cons_2 P k0 l' (key_ind P Hstr Htuple Hother k0) (go l')
            end) ks)
  | KOther o => Hother o
  end.

(** Keys are dictionary keys: equality on them is decidable and they can
    index a finite map. *)
Fixpoint key_enc (k : key) : gen_tree (string + N * string) :=
  match k with
  | KStr s => GenLeaf (inl s)
  | KTuple ks => GenNode 0 (map key_enc ks)
  | KOther o => GenLeaf (inr (py_id o, py_str o))
  end.

Fixpoint key_dec (t : gen_tree (string + N * string)) : key :=
  match t with
  | GenLeaf (inl s) => KStr s
  | GenLeaf (inr (i, s)) => KOther (PyObject i s)
  | GenNode _ ts => KTuple (map key_dec ts)
  end.

Lemma key_dec_enc k : key_dec (key_enc k) = k.
Proof.
  induction k as [s|ks IH|[i s]] using key_ind; simpl; [done| |done].
  f_equal. induction IH as [|k ks Hk _ IHks]; simpl; [done|].
  by rewrite Hk, IHks.
Qed.

#[global] Instance key_eq_dec : EqDecision key.
Proof.
  intros x y. destruct (decide (key_enc x = key_enc y)) as [H|H].
  - left. by rewrite <-(key_dec_enc x), H, key_dec_enc.
  - right. congruence.
Defined.

#[global] Instance key_countable : Countable key :=
  inj_countable' key_enc key_dec key_dec_enc.

(** ** Key extension *)

(** [key[:-1] + (f(key[-1]),)]; indexing [key[-1]] of the empty tuple
    raises [IndexError]. *)
Fixpoint map_last {A} (f : A -> result A) (ks : list A) : result (list A) :=
  match ks with
  | [] => Raise IndexError
  | [k] => rbind (f k) (fun k' => Ok [k'])
  | k :: ks' => rbind (map_last f ks') (fun r => Ok (k :: r))
  end.

(** [extend(key, term)].  The last branch of the source calls
    [extend(str(key), term)]; [str(key)] is a [str], so that call takes
    the first branch. *)
Fixpoint extend (k : key) (term : string) : result key :=
  match k with
  | KStr s => Ok (KStr (s +:+ term))
  | KTuple ks =>
      rbind
        ((fix go (l : list key) : result (list key) :=
            match l with
            | [] => Raise IndexError
            | [k0] => rbind (extend k0 term) (fun k' => Ok [k'])
            | k0 :: l' => rbind (go l') (fun r => Ok (k0 :: r))
            end) ks)
        (fun ks' => Ok (KTuple ks'))
  | KOther o => Ok (KStr (py_str o +:+ term))
  end.

Lemma extend_tuple_unfold ks term :
  extend (KTuple ks) term =
  rbind (map_last (fun k => extend k term) ks) (fun ks' => Ok (KTuple ks')).
Proof.
  simpl. f_equal. induction ks as [|k ks IH]; [done|].
  destruct ks as [|k1 ks]; [done|]. simpl in *. by rewrite IH.
Qed.

(** ** Type descriptors (the part of numpy that the module relies on)

    numpy is an external library.  The descriptors below are the
    fixed-size builtin element types and the packed structured types
    over them, on a little-endian host (native byte order is [<]). *)

Inductive byteorder : Type := Little | Big.
Inductive width : Type := W2 | W4 | W8.
Inductive cwidth : Type := C8 | C16.
Inductive tunit : Type :=
  | UY | UM | UW | UD | Uh | Um | Us | Ums | Uus | Uns | Ups | Ufs | Uas.

Inductive prim : Type :=
  | PBool
  | PInt8
  | PUInt8
  | PInt (w : width) (o : byteorder)
  | PUInt (w : width) (o : byteorder)
  | PFloat (w : width) (o : byteorder)
  | PComplex (w : cwidth) (o : byteorder)
  | PDatetime (u : option tunit) (o : byteorder)
  | PTimedelta (u : option tunit) (o : byteorder).

Inductive dtype : Type :=
  | DPrim (p : prim)
  | DStruct (fields : list (string * prim)).

#[global] Instance byteorder_eq_dec : EqDecision byteorder.
Proof. solve_decision. Defined.
#[global] Instance width_eq_dec : EqDecision width.
Proof. solve_decision. Defined.
#[global] Instance cwidth_eq_dec : EqDecision cwidth.
Proof. solve_decision. Defined.
#[global] Instance tunit_eq_dec : EqDecision tunit.
Proof. solve_decision. Defined.
#[global] Instance prim_eq_dec : EqDecision prim.
Proof. solve_decision. Defined.
#[global] Instance dtype_eq_dec : EqDecision dtype.
Proof. solve_decision. Defined.

Definition width_bytes (w : width) : nat :=
  match w with W2 => 2 | W4 => 4 | W8 => 8 end.
Definition cwidth_bytes (w : cwidth) : nat :=
  match w with C8 => 8 | C16 => 16 end.

(** [dtype.itemsize] *)
Definition prim_itemsize (p : prim) : nat :=
  match p with
  | PBool | PInt8 | PUInt8 => 1
  | PInt w _ | PUInt w _ | PFloat w _ => width_bytes w
  | PComplex w _ => cwidth_bytes w
  | PDatetime _ _ | PTimedelta _ _ => 8
  end.

Definition itemsize (d : dtype) : nat :=
  match d with
  | DPrim p => prim_itemsize p
  | DStruct fs => foldr (fun f n => prim_itemsize f.2 + n) 0 fs
  end.

Definition width_digits (w : width) : string :=
  match w with W2 => "2" | W4 => "4" | W8 => "8" end.
Definition width_bits (w : width) : string :=
  match w with W2 => "16" | W4 => "32" | W8 => "64" end.
Definition cwidth_digits (w : cwidth) : string :=
  match w with C8 => "8" | C16 => "16" end.
Definition cwidth_bits (w : cwidth) : string :=
  match w with C8 => "64" | C16 => "128" end.

Definition unit_name (u : tunit) : string :=
  match u with
  | UY => "Y" | UM => "M" | UW => "W" | UD => "D" | Uh => "h" | Um => "m"
  | Us => "s" | Ums => "ms" | Uus => "us" | Uns => "ns" | Ups => "ps"
  | Ufs => "fs" | Uas => "as"
  end.

(** The unit suffix of a datetime type: nothing for the generic unit,
    ["[ns]"] and the like otherwise. *)
Definition unit_suffix (u : option tunit) : string :=
  match u with
  | None => ""
  | Some u => "[" +:+ unit_name u +:+ "]"
  end.

(** Kind character, size and unit: ["i4"], ["M8[ns]"]. *)
Definition prim_code (p : prim) : string :=
  match p with
  | PBool => "b1"
  | PInt8 => "i1"
  | PUInt8 => "u1"
  | PInt w _ => "i" +:+ width_digits w
  | PUInt w _ => "u" +:+ width_digits w
  | PFloat w _ => "f" +:+ width_digits w
  | PComplex w _ => "c" +:+ cwidth_digits w
  | PDatetime u _ => "M8" +:+ unit_suffix u
  | PTimedelta u _ => "m8" +:+ unit_suffix u
  end.

(** Byte order of a descriptor; one-byte types have none. *)
Definition prim_order (p : prim) : option byteorder :=
  match p with
  | PBool | PInt8 | PUInt8 => None
  | PInt _ o | PUInt _ o | PFloat _ o | PComplex _ o
  | PDatetime _ o | PTimedelta _ o => Some o
  end.

Definition order_char (o : option byteorder) : string :=
  match o with
  | None => "|"
  | Some Little => "<"
  | Some Big => ">"
  end.

(** [dtype.str], the array-protocol type string: ["<i4"], ["|b1"]. *)
Definition prim_typestr (p : prim) : string :=
  order_char (prim_order p) +:+ prim_code p.

(** [dtype.name] of a native descriptor: ["int32"], ["datetime64[ns]"]. *)
Definition prim_name (p : prim) : string :=
  match p with
  | PBool => "bool"
  | PInt8 => "int8"
  | PUInt8 => "uint8"
  | PInt w _ => "int" +:+ width_bits w
  | PUInt w _ => "uint" +:+ width_bits w
  | PFloat w _ => "float" +:+ width_bits w
  | PComplex w _ => "complex" +:+ cwidth_bits w
  | PDatetime u _ => "datetime64" +:+ unit_suffix u
  | PTimedelta u _ => "timedelta64" +:+ unit_suffix u
  end.

(** [str(d)] for a builtin descriptor: its name when it is in native
    byte order, its type string when it is byte-swapped. *)
Definition prim_str (p : prim) : string :=
  match prim_order p with
  | Some Big => prim_typestr p
  | _ => prim_name p
  end.

(** The format of a field inside the rendering of a structured
    descriptor: ['?'] for bool, kind and size with the byte order
    character (none for one-byte types) for the others. *)
Definition prim_short (p : prim) : string :=
  match p with
  | PBool => "?"
  | _ =>
      match prim_order p with
      | None => prim_code p
      | o => order_char o +:+ prim_code p
      end
  end.

(** [c in s] for a character [c] *)
Fixpoint contains (c : ascii) (s : string) : bool :=
  match s with
  | EmptyString => false
  | String c' s' => Ascii.eqb c c' || contains c s'
  end.

(** [repr(name)] for a name of ASCII characters: the name between
    single quotes, or between double quotes when it has a single quote
    and no double quote; the enclosing quote and the backslash are
    escaped with a backslash, tab, newline and carriage return are
    written with their letter, and the other control characters with
    two hexadecimal digits.  A character beyond ASCII is kept, as
    Python 3 keeps the printable ones. *)
Definition hex_digit (n : nat) : ascii :=
  ascii_of_nat (if (n <? 10)%nat then 48 + n else 87 + n).

Definition repr_char (q c : ascii) : string :=
  let n := nat_of_ascii c in
  if Ascii.eqb c q || Ascii.eqb c "\"%char then String "\" (String c "")
  else if (n =? 9)%nat then "\t"
  else if (n =? 10)%nat then "\n"
  else if (n =? 13)%nat then "\r"
  else if (n <? 32)%nat || (n =? 127)%nat
  then String "\" (String "x" (String (hex_digit (n / 16))
                                (String (hex_digit (n mod 16)) "")))
  else String c "".

Fixpoint repr_body (q : ascii) (s : string) : string :=
  match s with
  | EmptyString => String q ""
  | String c s' => repr_char q c +:+ repr_body q s'
  end.

Definition py_repr (s : string) : string :=
  let q := if contains "'" s && negb (contains (ascii_of_nat 34) s)
           then ascii_of_nat 34 else "'"%char in
  String q (repr_body q s).

(** One field of the rendering of a structured descriptor:
    [(repr(name), 'format')]. *)
Definition field_str (f : string * prim) : string :=
  "(" +:+ py_repr f.1 +:+ ", '" +:+ prim_short f.2 +:+ "')".

Fixpoint join (sep : string) (l : list string) : string :=
  match l with
  | [] => ""
  | [s] => s
  | s :: l' => s +:+ sep +:+ join sep l'
  end.

(** [str(d)]: the rendered type descriptor; a field name is rendered
    by its [repr]. *)
Definition dtype_str (d : dtype) : string :=
  match d with
  | DPrim p => prim_str p
  | DStruct fs => "[" +:+ join ", " (map field_str fs) +:+ "]"
  end.

(** *** [np.dtype(s)] on a string *)

Definition all_orders : list byteorder := [Little; Big].
Definition all_widths : list width := [W2; W4; W8].
Definition all_cwidths : list cwidth := [C8; C16].
Definition all_units : list (option tunit) :=
  None :: map Some [UY; UM; UW; UD; Uh; Um; Us; Ums; Uus; Uns; Ups; Ufs; Uas].

Definition all_prims : list prim :=
  [PBool; PInt8; PUInt8]
  ++ (o ← all_orders; w ← all_widths; [PInt w o; PUInt w o; PFloat w o])
  ++ (o ← all_orders; w ← all_cwidths; [PComplex w o])
  ++ (o ← all_orders; u ← all_units; [PDatetime u o; PTimedelta u o]).

(** The spellings of a builtin descriptor that the string parser
    accepts: its name and its type string when native, the type string
    with any byte order character for a one-byte type, with [<], [=] or
    none for a native type, and with [>] for a byte-swapped one. *)
Definition spellings (p : prim) : list string :=
  match prim_order p with
  | None =>
      prim_name p
      :: map (fun c => c +:+ prim_code p) ["|"; ""; "<"; ">"; "="]
      ++ (if decide (p = PBool) then ["?"] else [])
  | Some Little =>
      prim_name p :: map (fun c => c +:+ prim_code p) ["<"; ""; "="]
  | Some Big => [">" +:+ prim_code p]
  end.

Definition token_table : list (string * prim) :=
  p ← all_prims; map (fun s => (s, p)) (spellings p).

Fixpoint assoc {A} (s : string) (l : list (string * A)) : option A :=
  match l with
  | [] => None
  | (s', a) :: l' => if String.eqb s s' then Some a else assoc s l'
  end.

Definition starts_with (c : ascii) (s : string) : bool :=
  match s with
  | String c' _ => Ascii.eqb c c'
  | EmptyString => false
  end.

(** [np.dtype(s)] for a string [s].  A spelling of the table gives its
    descriptor.  No format of numpy's descriptor strings begins with a
    bracket, so such a string is rejected ("data type not understood");
    what numpy does with the remaining strings (further aliases, comma
    separated formats) is outside this model. *)
Definition np_dtype_token (s : string) : result prim :=
  match assoc s token_table with
  | Some p => Ok p
  | None => if starts_with "["%char s then Raise NumpyError else Raise Unsupported
  end.

(** *** Python expressions: the literals and names that [eval] meets *)

#[local] Unset Elimination Schemes.
Inductive pyval : Type :=
  | PStr (s : string)
  | PBoolean (b : bool)
  | PList (vs : list pyval)
  | PTuple (vs : list pyval)
  | PDtype (d : dtype).

Inductive pyexpr : Type :=
  | EName (n : string)
  | EStr (s : string)
  | EList (es : list pyexpr)
  | ETuple (es : list pyexpr)
  | ESubscript (e : pyexpr) (i : pyexpr).
#[local] Set Elimination Schemes.

Inductive token : Type :=
  | TLBrack | TRBrack | TLParen | TRParen | TComma
  | TStr (s : string)
  | TName (n : string).

#[global] Instance token_eq_dec : EqDecision token.
Proof. solve_decision. Defined.

Inductive lexmode : Type :=
  | LStart
  | LQuote (q : ascii) (acc : string)
  | LWord (acc : string).

Definition is_lower (c : ascii) : bool :=
  let n := nat_of_ascii c in (97 <=? n)%nat && (n <=? 122)%nat.
Definition is_upper (c : ascii) : bool :=
  let n := nat_of_ascii c in (65 <=? n)%nat && (n <=? 90)%nat.
Definition is_digit (c : ascii) : bool :=
  let n := nat_of_ascii c in (48 <=? n)%nat && (n <=? 57)%nat.
Definition is_word_start (c : ascii) : bool :=
  is_lower c || is_upper c || Ascii.eqb c "_"%char.
Definition is_word (c : ascii) : bool := is_word_start c || is_digit c.
Definition is_quote (c : ascii) : bool :=
  Ascii.eqb c "'"%char || Ascii.eqb c (ascii_of_nat 34).

(** A printable character other than the backslash. *)
Definition is_plain (c : ascii) : bool :=
  let n := nat_of_ascii c in
  (32 <=? n)%nat && (n <=? 126)%nat && negb (Ascii.eqb c "\"%char).

Definition snoc (s : string) (c : ascii) : string := s +:+ String c "".

(** The lexer at the start of a token: the mode after [c] and the token
    that [c] alone makes up. *)
Definition lex_start (c : ascii) : result (lexmode * list token) :=
  if Ascii.eqb c " "%char then Ok (LStart, [])
  else if Ascii.eqb c "["%char then Ok (LStart, [TLBrack])
  else if Ascii.eqb c "]"%char then Ok (LStart, [TRBrack])
  else if Ascii.eqb c "("%char then Ok (LStart, [TLParen])
  else if Ascii.eqb c ")"%char then Ok (LStart, [TRParen])
  else if Ascii.eqb c ","%char then Ok (LStart, [TComma])
  else if is_quote c then Ok (LQuote c "", [])
  else if is_word_start c then Ok (LWord (String c ""), [])
  else Raise Unsupported.

(** Brackets, parentheses, commas, plain quoted strings and names,
    separated by spaces.  Escapes inside a string, string prefixes,
    numbers, operators and an unfinished string are not modelled. *)
Fixpoint lex (m : lexmode) (s : string) : result (list token) :=
  match s with
  | EmptyString =>
      match m with
      | LStart => Ok []
      | LQuote _ _ => Raise Unsupported
      | LWord acc => Ok [TName acc]
      end
  | String c s' =>
      match m with
      | LStart =>
          rbind (lex_start c) (fun mt =>
          rbind (lex mt.1 s') (fun ts => Ok (mt.2 ++ ts)))
      | LQuote q acc =>
          if Ascii.eqb c q then
            rbind (lex LStart s') (fun ts => Ok (TStr acc :: ts))
          else if negb (is_plain c) then Raise Unsupported
          else lex (LQuote q (snoc acc c)) s'
      | LWord acc =>
          if is_word c then lex (LWord (snoc acc c)) s'
          else if is_quote c then Raise Unsupported
          else
            rbind (lex_start c) (fun mt =>
            rbind (lex mt.1 s') (fun ts => Ok (TName acc :: mt.2 ++ ts)))
      end
  end.

(** Words that are not names: the keywords of Python 2 and 3. *)
Definition keywords : list string :=
  ["and"; "as"; "assert"; "async"; "await"; "break"; "class"; "continue";
   "def"; "del"; "elif"; "else"; "except"; "exec"; "finally"; "for";
   "from"; "global"; "if"; "import"; "in"; "is"; "lambda"; "nonlocal";
   "not"; "or"; "pass"; "print"; "raise"; "return"; "try"; "while";
   "with"; "yield"; "None"; "True"; "False"].

Definition mem (s : string) (l : list string) : bool :=
  existsb (String.eqb s) l.

(** Recursive descent over the tokens; [fuel] bounds the nesting.
    - [parse_expr]: an atom followed by subscripts [e[i]];
    - [parse_items close]: comma separated expressions up to [close],
      with the flag telling whether a comma was seen;
    - [parse_subs e]: the subscripts that follow [e]. *)
Fixpoint parse_expr (fuel : nat) (ts : list token)
    : option (pyexpr * list token) :=
  match fuel with
  | O => None
  | S fuel' =>
      match ts with
      | TName n :: r =>
          if mem n keywords then None else parse_subs fuel' (EName n) r
      | TStr s :: r =>
          match r with
          | TStr _ :: _ => None
          | _ => parse_subs fuel' (EStr s) r
          end
      | TLBrack :: r =>
          match parse_items fuel' TRBrack r with
          | Some (es, _, r') => parse_subs fuel' (EList es) r'
          | None => None
          end
      | TLParen :: r =>
          match parse_items fuel' TRParen r with
          | Some ([e], false, r') => parse_subs fuel' e r'
          | Some (es, _, r') => parse_subs fuel' (ETuple es) r'
          | None => None
          end
      | _ => None
      end
  end
with parse_items (fuel : nat) (close : token) (ts : list token)
    : option (list pyexpr * bool * list token) :=
  match fuel with
  | O => None
  | S fuel' =>
      match ts with
      | [] => None
      | t :: r =>
          if decide (t = close) then Some ([], false, r)
          else
            match parse_expr fuel' ts with
            | Some (e, TComma :: t' :: r') =>
                if decide (t' = close) then Some ([e], true, r')
                else
                  match parse_items fuel' close (t' :: r') with
                  | Some (es, _, r'') => Some (e :: es, true, r'')
                  | None => None
                  end
            | Some (e, t' :: r') =>
                if decide (t' = close) then Some ([e], false, r') else None
            | _ => None
            end
      end
  end
with parse_subs (fuel : nat) (e : pyexpr) (ts : list token)
    : option (pyexpr * list token) :=
  match fuel with
  | O => None
  | S fuel' =>
      match ts with
      | TLBrack :: r =>
          match parse_expr fuel' r with
          | Some (i, TRBrack :: r') => parse_subs fuel' (ESubscript e i) r'
          | _ => None
          end
      | _ => Some (e, ts)
      end
  end.

(** The names bound where [parse_dtype] calls [eval]: the parameter
    [s] of [parse_dtype], which holds the string being evaluated, the
    globals of the module and the builtins of Python 2 and 3 that start
    with a lower-case letter. *)
Definition module_globals : list string :=
  ["absolute_import"; "np"; "partial"; "struct"; "contextmanager";
   "memoize"; "core"; "destroy"; "create"; "partd"; "extend"; "dtypes";
   "parse_dtype"; "put"; "get"; "valmap"].

Definition builtins : list string :=
  ["abs"; "aiter"; "all"; "anext"; "any"; "apply"; "ascii"; "basestring";
   "bin"; "bool"; "breakpoint"; "buffer"; "bytearray"; "bytes";
   "callable"; "chr"; "classmethod"; "cmp"; "coerce"; "compile";
   "complex"; "copyright"; "credits"; "delattr"; "dict"; "dir"; "divmod";
   "enumerate"; "eval"; "exec"; "execfile"; "exit"; "file"; "filter";
   "float"; "format"; "frozenset"; "getattr"; "globals"; "hasattr";
   "hash"; "help"; "hex"; "id"; "input"; "int"; "intern"; "isinstance";
   "issubclass"; "iter"; "len"; "license"; "list"; "locals"; "long";
   "map"; "max"; "memoryview"; "min"; "next"; "object"; "oct"; "open";
   "ord"; "pow"; "print"; "property"; "quit"; "range"; "raw_input";
   "reduce"; "reload"; "repr"; "reversed"; "round"; "set"; "setattr";
   "slice"; "sorted"; "staticmethod"; "str"; "sum"; "super"; "tuple";
   "type"; "unichr"; "unicode"; "vars"; "xrange"; "zip"].

(** Looking a name up during [eval(s)].  The local [s] is the string
    itself.  Another name that starts with a lower-case letter and is
    neither a global of the module nor a builtin is unbound:
    [NameError].  The objects behind the bound globals and builtins,
    and the names that start with a capital or an underscore (exception
    classes, dunder names), are not modelled. *)
Definition lookup_name (s : string) (n : string) : result pyval :=
  if String.eqb n "s" then Ok (PStr s)
  else
    match n with
    | String c _ =>
        if is_lower c && negb (mem n module_globals) && negb (mem n builtins)
        then Raise (NameError n)
        else Raise Unsupported
    | EmptyString => Raise Unsupported
    end.

(** Evaluation, left to right.  In [e[i]] the value of [e] comes first,
    so an unbound [e] raises before [i] is looked at; subscripting a
    value is not modelled. *)
Fixpoint eval_expr (s : string) (e : pyexpr) : result pyval :=
  match e with
  | EName n => lookup_name s n
  | EStr lit => Ok (PStr lit)
  | EList es =>
      rbind
        ((fix go (l : list pyexpr) : result (list pyval) :=
            match l with
            | [] => Ok []
            | e0 :: l' =>
                rbind (eval_expr s e0) (fun v =>
                rbind (go l') (fun vs => Ok (v :: vs)))
            end) es)
        (fun vs => Ok (PList vs))
  | ETuple es =>
      rbind
        ((fix go (l : list pyexpr) : result (list pyval) :=
            match l with
            | [] => Ok []
            | e0 :: l' =>
                rbind (eval_expr s e0) (fun v =>
                rbind (go l') (fun vs => Ok (v :: vs)))
            end) es)
        (fun vs => Ok (PTuple vs))
  | ESubscript e0 i =>
      rbind (eval_expr s e0) (fun _ =>
      rbind (eval_expr s i) (fun _ => Raise Unsupported))
  end.

(** [eval(s)] as [parse_dtype] calls it, with its parameter [s] in
    scope. *)
Definition py_eval (s : string) : result pyval :=
  rbind (lex LStart s) (fun ts =>
  match parse_expr (S (length ts)) ts with
  | Some (e, []) => eval_expr s e
  | _ => Raise Unsupported
  end).

(** *** [np.dtype(obj)] *)

(** One entry of a field list: a pair of a name and a format string. *)
Definition field_of (v : pyval) : result (string * prim) :=
  match v with
  | PTuple [PStr name; PStr fmt] =>
      rbind (np_dtype_token fmt) (fun p => Ok (name, p))
  | _ => Raise Unsupported
  end.

Fixpoint has_dup (l : list string) : bool :=
  match l with
  | [] => false
  | s :: l' => mem s l' || has_dup l'
  end.

(** [np.dtype(obj)] for a descriptor, a string, or a list of
    [(name, format)] pairs; a name that occurs twice is rejected.  Empty
    names (numpy replaces them) and the other forms are not modelled. *)
Definition np_dtype (v : pyval) : result dtype :=
  match v with
  | PDtype d => Ok d
  | PStr s => rbind (np_dtype_token s) (fun p => Ok (DPrim p))
  | PList vs =>
      rbind (rmap field_of vs) (fun fs =>
      if mem "" (map fst fs) then Raise Unsupported
      else if has_dup (map fst fs) then Raise NumpyError
      else Ok (DStruct fs))
  | _ => Raise Unsupported
  end.

(** ** The type descriptor codec of the module *)

(** [parse_dtype(s)], with ['[' in s] as the test *)
Definition parse_dtype (s : string) : result dtype :=
  if contains "["%char s then rbind (py_eval s) np_dtype
  else np_dtype (PStr s).

(** ** Arrays *)

(** An array: its shape, its element type and its elements as raw bytes
    in row-major order. *)
Record ndarray : Type := NdArray {
  arr_shape : list nat;
  arr_dtype : dtype;
  arr_data : string
}.

(** [v.tobytes()] *)
Definition tobytes (v : ndarray) : string := arr_data v.

(** The buffer of an array holds one item per element. *)
Definition wf_array (v : ndarray) : Prop :=
  itemsize (arr_dtype v) ≠ 0 ∧
  String.length (arr_data v) = foldr Nat.mul 1 (arr_shape v) * itemsize (arr_dtype v).

(** [np.frombuffer(buf, dt)]: a flat view over [buf]; [dt] is anything
    that [np.dtype] accepts.  A buffer that is not a whole number of
    items, or items of size zero, are rejected. *)
Definition np_frombuffer (buf : string) (dt : pyval) : result ndarray :=
  rbind (np_dtype dt) (fun d =>
  let n := itemsize d in
  if (n =? 0)%nat then Raise NumpyError
  else if (String.length buf mod n =? 0)%nat
  then Ok (NdArray [String.length buf / n] d buf)
  else Raise NumpyError).

(** [list(map(f, xs, ys))]: [f] on the pairs of elements in order, up
    to the end of the shorter sequence, as [map] does in Python 3. *)
Fixpoint map2r {A B C} (f : A -> B -> result C) (xs : list A) (ys : list B)
    : result (list C) :=
  match xs, ys with
  | x :: xs', y :: ys' =>
      rbind (f x y) (fun c => rbind (map2r f xs' ys') (fun cs => Ok (c :: cs)))
  | _, _ => Ok []
  end.

(** ** The byte store and the state of the process *)

Definition path : Type := string.

(** Keyword options of a call. *)
Definition kwargs : Type := list (string * pyval).

(** A sequence of keys as the caller built it: a list or a tuple. *)
Inductive pyseq : Type :=
  | PyList (l : list key)
  | PyTuple (l : list key).

(** [tuple(keys)], also the order in which [for key in keys] runs. *)
Definition items (s : pyseq) : list key :=
  match s with PyList l | PyTuple l => l end.

(** The calls that reach the byte store. *)
Inductive call : Type :=
  | CallPut (p : path) (data : list (key * string)) (kw : kwargs)
  | CallGet (p : path) (keys : pyseq) (kw : kwargs)
  | CallEnsure (p : path) (k : key) (v : string)
  | CallIset (p : path) (k : key) (v : string)
  | CallAppend (p : path) (data : list (key * string)) (kw : kwargs)
  | CallDelete (p : path) (keys : pyseq) (kw : kwargs)
  | CallDrop (p : path).

(** The state that calls act on: the entries of the byte store, the
    cache of the memoised [dtypes], and the calls made to the store so
    far. *)
Record world : Type := World {
  store : gmap (path * key) string;
  cache : gmap (path * list key) (list dtype);
  calls : list call
}.

Definition empty_world : world := World ∅ ∅ [].

Definition set_store (f : gmap (path * key) string -> gmap (path * key) string)
    (w : world) : world :=
  World (f (store w)) (cache w) (calls w).
Definition set_cache
    (f : gmap (path * list key) (list dtype) -> gmap (path * list key) (list dtype))
    (w : world) : world :=
  World (store w) (f (cache w)) (calls w).
Definition log (c : call) (w : world) : world :=
  World (store w) (cache w) (calls w ++ [c]).

(** Computations that read and write the state and may raise; what a
    call did before it raised stays done. *)
Definition M (A : Type) : Type := world -> result A * world.

Definition ret {A} (a : A) : M A := fun w => (Ok a, w).
Definition lift {A} (r : result A) : M A := fun w => (r, w).
Definition bind {A B} (c : M A) (f : A -> M B) : M B := fun w =>
  match c w with
  | (Ok a, w') => f a w'
  | (Raise e, w') => (Raise e, w')
  end.

Notation "'let*' x := c 'in' k" := (bind c (fun x => k))
  (at level 10, x name, c at level 100, k at level 200).

(** [for x in xs: body(x)] *)
Fixpoint for_each {A} (xs : list A) (body : A -> M unit) : M unit :=
  match xs with
  | [] => ret tt
  | x :: xs' => let* _ := body x in for_each xs' body
  end.

(** Modelled from the spec: [core.put], which is not part of this
    module.  Write-or-overwrite of every entry of the mapping. *)
Definition core_put (p : path) (data : list (key * string)) (kw : kwargs)
    : M unit := fun w =>
  (Ok tt,
   log (CallPut p data kw)
     (set_store (fun m => foldl (fun m kv => <[(p, kv.1) := kv.2]> m) m data) w)).

(** Modelled from the spec: [core.get], which is not part of this
    module.  Batched read that keeps the order of the keys; an absent
    key is a key-not-found error. *)
Definition core_get (p : path) (keys : pyseq) (kw : kwargs)
    : M (list string) := fun w =>
  (match mapM (fun k => store w !! (p, k)) (items keys) with
   | Some vs => Ok vs
   | None => Raise KeyError
   end,
   log (CallGet p keys kw) w).

(** Modelled from the spec: [core.ensure], which is not part of this
    module.  Insert-or-update of a single value. *)
Definition core_ensure (p : path) (k : key) (v : string) : M unit := fun w =>
  (Ok tt, log (CallEnsure p k v) (set_store (insert (p, k) v) w)).

(** ** The memoised metadata lookup *)

(** What the [get] parameter of [dtypes] and [get] stands for. *)
Definition get_fn : Type := path -> pyseq -> kwargs -> M (list string).

(** What the [put] parameter of [put] stands for. *)
Definition put_fn : Type := path -> list (key * string) -> kwargs -> M unit.

(** The body of [dtypes]: the [get] call receives [lock=lock] next to
    the other keyword options. *)
Definition dtypes_body (p : path) (keys : pyseq) (get : get_fn)
    (lock : pyval) (kw : kwargs) : M (list dtype) :=
  let* dt_keys := lift (rmap (fun k => extend k ".dtype") (items keys)) in
  let* text := get p (PyList dt_keys) (("lock", lock) :: kw) in
  lift (rmap parse_dtype text).

(** [dtypes(path, keys, get=..., lock=..., **kwargs)] under
    [@memoize(key=lambda args, kwargs: (args[0], tuple(args[1])))]: the
    cache is looked up under the pair of the path and the tuple of the
    keys; on a miss the body runs and its result, if it returns, is
    stored under that pair. *)
Definition dtypes (p : path) (keys : pyseq) (get : get_fn)
    (lock : pyval) (kw : kwargs) : M (list dtype) := fun w =>
  match cache w !! (p, items keys) with
  | Some r => (Ok r, w)
  | None =>
      match dtypes_body p keys get lock kw w with
      | (Ok r, w') => (Ok r, set_cache (insert (p, items keys) r) w')
      | (Raise e, w') => (Raise e, w')
      end
  end.

(** ** Bulk store and load *)

(** [put(path, data, put=..., **kwargs)]; [data] stands for
    [data.items()]. *)
Definition put (p : path) (data : list (key * ndarray)) (put_f : put_fn)
    (kw : kwargs) : M unit :=
  let bytes := map (fun kv => (kv.1, tobytes kv.2)) data in
  let* _ := put_f p bytes kw in
  for_each data (fun kv =>
    let* mk := lift (extend kv.1 ".dtype") in
    core_ensure p mk (dtype_str (arr_dtype kv.2))).

(** How [dtypes(path, keys, get=get, **kwargs)] binds the keyword
    options of [get]: an option named [lock] becomes the [lock]
    parameter, which is [False] otherwise; the others stay options. *)
Definition lock_of (kw : kwargs) : pyval :=
  default (PBoolean false) (assoc "lock" kw).
Definition without_lock (kw : kwargs) : kwargs :=
  filter (fun o => negb (String.eqb o.1 "lock")) kw.

(** [get(path, keys, get=..., **kwargs)] *)
Definition get (p : path) (keys : pyseq) (get_f : get_fn) (kw : kwargs)
    : M (list ndarray) :=
  let* bytes := get_f p keys kw in
  let* dts := dtypes p keys get_f (lock_of kw) (without_lock kw) in
  lift (map2r np_frombuffer bytes (map PDtype dts)).

(** ** The wrapper object *)

(** The object that [PartdNumpy] wraps, by the methods that the wrapper
    calls on it. *)
Record handle : Type := Handle {
  h_iset : key -> string -> M unit;
  h_append : list (key * string) -> kwargs -> M unit;
  h_get : pyseq -> kwargs -> M (list string);
  h_delete : pyseq -> kwargs -> M unit;
  h_drop : M unit
}.

Record PartdNumpy : Type := MkPartdNumpy { partd : handle }.

(** [k + '.dtype'] for a key [k]: concatenation for a string, a
    [TypeError] for a tuple (only a tuple can be added to a tuple); for
    another object it depends on the type of the object. *)
Definition key_add (k : key) (term : string) : result key :=
  match k with
  | KStr s => Ok (KStr (s +:+ term))
  | KTuple _ => Raise TypeError
  | KOther _ => Raise Unsupported
  end.

(** [PartdNumpy.append(self, data, **kwargs)] *)
Definition append (self : PartdNumpy) (data : list (key * ndarray))
    (kw : kwargs) : M unit :=
  let* _ := for_each data (fun kv =>
    let* mk := lift (key_add kv.1 ".dtype") in
    h_iset (partd self) mk (dtype_str (arr_dtype kv.2))) in
  h_append (partd self) (map (fun kv => (kv.1, tobytes kv.2)) data) kw.

(** [PartdNumpy._get(self, keys, **kwargs)] *)
Definition _get (self : PartdNumpy) (keys : pyseq) (kw : kwargs)
    : M (list ndarray) :=
  let* bytes := h_get (partd self) keys kw in
  let* dt_keys := lift (rmap (fun k => extend k ".dtype") (items keys)) in
  let* dtypes := h_get (partd self) (PyList dt_keys) [("lock", PBoolean false)] in
  lift (map2r np_frombuffer bytes (map PStr dtypes)).

(** [PartdNumpy.delete(self, keys, **kwargs)] *)
Definition delete (self : PartdNumpy) (keys : pyseq) (kw : kwargs) : M unit :=
  let* keys2 := lift (rmap (fun k => extend k ".dtype") (items keys)) in
  h_delete (partd self) (PyList keys2) kw.

(** [PartdNumpy._iset(self, key, value)] *)
Definition _iset (self : PartdNumpy) (k : key) (v : string) : M unit :=
  h_iset (partd self) k v.

(** [PartdNumpy.drop(self)] *)
Definition drop (self : PartdNumpy) : M unit := h_drop (partd self).

(** Modelled from the spec: the handle of the underlying byte store at
    one location, which is not part of this module.  [_iset] sets one
    value; [append] appends bytes to existing entries or creates them;
    [_get] is a batched read in key order that fails on an absent key;
    [delete] removes entries; [drop] clears the location. *)
Definition store_handle (p : path) : handle := {|
  h_iset k v := fun w =>
    (Ok tt, log (CallIset p k v) (set_store (insert (p, k) v) w));
  h_append data kw := fun w =>
    (Ok tt,
     log (CallAppend p data kw)
       (set_store
          (fun m =>
             foldl (fun m kv =>
                      <[(p, kv.1) := default "" (m !! (p, kv.1)) +:+ kv.2]> m)
                   m data) w));
  h_get keys kw := core_get p keys kw;
  h_delete keys kw := fun w =>
    (Ok tt,
     log (CallDelete p keys kw)
       (set_store (fun m => foldr (fun k m => base.delete (p, k) m) m (items keys)) w));
  h_drop := fun w =>
    (Ok tt,
     log (CallDrop p)
       (set_store (filter (fun e => e.1.1 ≠ p)) w))
|}.

(** ** Auxiliary notions for the statements *)

(** The builtin descriptors whose rendering has a bracket: the
    datetime and timedelta types that carry a unit. *)
Definition has_unit (p : prim) : bool :=
  match p with
  | PDatetime (Some _) _ | PTimedelta (Some _) _ => true
  | _ => false
  end.

(** The metadata writes of [append] for string keys, one [_iset] per
    entry in the order of the entries. *)
Definition iset_calls (p : path) (data : list (string * ndarray)) : list call :=
  map (fun kv => CallIset p (KStr (kv.1 +:+ ".dtype"))
                   (dtype_str (arr_dtype kv.2))) data.

(** A mapping whose keys are all strings, as [data.items()]. *)
Definition str_keys (data : list (string * ndarray)) : list (key * ndarray) :=
  map (fun kv => (KStr kv.1, kv.2)) data.

(** Running the monadic code of a definition one call at a time. *)
Ltac run :=
  repeat (progress
            (unfold bind, lift, ret, core_put, core_get, core_ensure, log,
               set_store, set_cache; simpl)).

(** A field name made of letters, digits and underscores, not empty:
    the names whose [repr] is the name between single quotes. *)
Fixpoint all_chars (P : ascii -> bool) (s : string) : bool :=
  match s with
  | EmptyString => true
  | String c s' => P c && all_chars P s'
  end.

Definition simple_name (s : string) : bool :=
  negb (String.eqb s "") && all_chars is_word s.

(** The structured descriptors that [np.dtype] builds from a list of
    distinct simple names. *)
Definition wf_fields (fs : list (string * prim)) : Prop :=
  Forall (fun f => simple_name f.1 = true) fs /\ has_dup (map fst fs) = false.

(** A character that stands for itself between single quotes. *)
Definition quotable (c : ascii) : bool :=
  is_plain c && negb (Ascii.eqb c "'"%char).

(** The tokens, the expression and the value of the rendering of a
    field list. *)
Definition field_tokens (f : string * prim) : list token :=
  [TLParen; TStr f.1; TComma; TStr (prim_short f.2); TRParen].

Fixpoint fields_tokens (fs : list (string * prim)) : list token :=
  match fs with
  | [] => []
  | [f] => field_tokens f
  | f :: fs' => field_tokens f ++ TComma :: fields_tokens fs'
  end.

Definition field_expr (f : string * prim) : pyexpr :=
  ETuple [EStr f.1; EStr (prim_short f.2)].

Definition field_val (f : string * prim) : pyval :=
  PTuple [PStr f.1; PStr (prim_short f.2)].

(** The component that [extend] reaches: the key itself when it is a
    string or another object, the last component of a tuple, followed
    through nested tuples; an empty tuple on the way has none. *)
Fixpoint last_leaf (k : key) : option (string + pyobject) :=
  match k with
  | KStr s => Some (inl s)
  | KOther o => Some (inr o)
  | KTuple ks =>
      (fix go (l : list key) : option (string + pyobject) :=
         match l with
         | [] => None
         | [k0] => last_leaf k0
         | _ :: l' => go l'
         end) ks
  end.

(** The metadata writes of [put]: one [core.ensure] per entry, in the
    order of the entries, up to the first key that cannot be
    extended. *)
Fixpoint ensure_calls (p : path) (data : list (key * ndarray)) : list call :=
  match data with
  | [] => []
  | kv :: data' =>
      match extend kv.1 ".dtype" with
      | Ok mk =>
          CallEnsure p mk (dtype_str (arr_dtype kv.2)) :: ensure_calls p data'
      | Raise _ => []
      end
  end.

(** ** Sample data *)

Definition sample_int32 : ndarray :=
  NdArray [2] (DPrim (PInt W4 Little)) "abcdefgh".
Definition sample_float64 : ndarray :=
  NdArray [1] (DPrim (PFloat W8 Little)) "ABCDEFGH".
Definition sample_record : ndarray :=
  NdArray [1] (DStruct [("a", PInt W4 Little)]) "abcd".
Definition sample_datetime : ndarray :=
  NdArray [1] (DPrim (PDatetime (Some Uns) Little)) "ABCDEFGH".
(** Two elements of [dtype([])], whose items have no bytes. *)
Definition sample_empty_record : ndarray :=
  NdArray [2] (DStruct []) "".


(** What the store and load round trip asks of a location [p], a key [k] and an array [a] in a
    state [w]: storing [{k: a}] returns, loading [[k]] afterwards
    returns one array, and that array has the bytes and the descriptor
    of [a]. *)
Definition roundtrip_at (p : path) (k : key) (a : ndarray) (kw kw' : kwargs)
    (w : world) : Prop :=
  exists w1 w2 a',
    put p [(k, a)] core_put kw w = (Ok tt, w1) /\
    get p (PyList [k]) core_get kw' w1 = (Ok [a'], w2) /\
    arr_data a' = tobytes a /\
    arr_dtype a' = arr_dtype a.

(** The state after [put("loc", {"x": sample_int32})] and
    [get("loc", ["x"])] in a fresh process: the cache of [dtypes] now
    holds the descriptor of ["x"]. *)
Definition world_after_first_load : world :=
  (get "loc" (PyList [KStr "x"]) core_get []
     (put "loc" [(KStr "x", sample_int32)] core_put [] empty_world).2).2.

(** The states after [PartdNumpy(handle).append({"x": ...})] on the
    handle of ["loc"] in a fresh process. *)
Definition world_after_append : world :=
  (append (MkPartdNumpy (store_handle "loc")) [(KStr "x", sample_int32)] []
     empty_world).2.
Definition world_after_append_record : world :=
  (append (MkPartdNumpy (store_handle "loc")) [(KStr "x", sample_record)] []
     empty_world).2.

(** What the frame property of [delete] asks of a sequence of keys in a
    state [w]: the call returns, and the data entry at every key of the
    sequence is as before, as is the outcome of reading it. *)
Definition delete_keeps_data (p : path) (keys : pyseq) (kw : kwargs)
    (w : world) : Prop :=
  exists w',
    delete (MkPartdNumpy (store_handle p)) keys kw w = (Ok tt, w') /\
    forall k, k ∈ items keys ->
      store w' !! (p, k) = store w !! (p, k) /\
      (h_get (store_handle p) (PyList [k]) [] w').1
      = (h_get (store_handle p) (PyList [k]) [] w).1.

(** The states after [put("loc", {"x": sample_int32})] and after
    [put("loc", {(): sample_int32})], which raises once the data is
    written, in a fresh process. *)
Definition world_after_put : world :=
  (put "loc" [(KStr "x", sample_int32)] core_put [] empty_world).2.
Definition world_after_put_empty_tuple : world :=
  (put "loc" [(KTuple [], sample_int32)] core_put [] empty_world).2.

(** * Properties *)

(** ** Key extension *)

Section KeyExtension.
Implicit Types (k : key) (ks : list key) (term : string).

Lemma rbind_ok {A B} (r : result A) (f : A -> result B) b :
  rbind r f = Ok b -> exists a, r = Ok a /\ f a = Ok b.
Proof. destruct r as [a|e]; simpl; [eauto | discriminate]. Qed.

(** [key[:-1] + (f(key[-1]),)] on a tuple written as its front and its
    last component. *)
Lemma map_last_snoc {A} (f : A -> result A) (l : list A) (x : A) :
  map_last f (l ++ [x]) = rbind (f x) (fun y => Ok (l ++ [y])).
Proof.
  induction l as [|a l IH]; simpl.
  - reflexivity.
  - destruct (l ++ [x]) as [|b l'] eqn:E.
    + destruct l; discriminate.
    + rewrite IH. destruct (f x); reflexivity.
Qed.

(** A tuple that is extended is not empty; the result differs from it
    in the last position only. *)
Lemma map_last_ok {A} (f : A -> result A) (l l' : list A) :
  map_last f l = Ok l' ->
  exists front x y, l = front ++ [x] /\ f x = Ok y /\ l' = front ++ [y].
Proof.
  induction l as [|x l _] using rev_ind; [discriminate|].
  rewrite map_last_snoc. intros H.
  apply rbind_ok in H as (y & Hy & Hl). injection Hl as <-.
  exists l, x, y. auto.
Qed.

Lemma string_app_length (s t : string) :
  String.length (s +:+ t) = String.length s + String.length t.
Proof. induction s as [|c s IH]; simpl; [reflexivity | by rewrite IH]. Qed.

(** Extending with a non-empty suffix never gives the key back: the
    metadata key of a key is another key. *)
Lemma extend_ne k term k' :
  term <> "" -> extend k term = Ok k' -> k' <> k.
Proof.
  intros Hterm. revert k'.
  induction k as [s|ks IH|o] using key_ind; intros k' H.
  - injection H as <-. intros [=E]. apply Hterm.
    assert (Hlen := string_app_length s term). rewrite E in Hlen.
    destruct term; [reflexivity | simpl in Hlen; lia].
  - rewrite extend_tuple_unfold in H.
    apply rbind_ok in H as (ks' & Hks & Hk'). injection Hk' as <-.
    apply map_last_ok in Hks as (front & x & y & -> & Hy & ->).
    intros [=E]. apply app_inv_head in E. injection E as E.
    rewrite Forall_app, Forall_singleton in IH. destruct IH as [_ IHx].
    by apply (IHx y).
  - injection H as <-. discriminate.
Qed.
End KeyExtension.

(** C2.  Key extension contract: a string key is extended by string
    concatenation; a tuple key with last component [kn] is extended to
    the tuple that agrees with it in every position but the last, which
    holds the extension of [kn] (and the extension fails exactly when
    that of [kn] does); any other key is extended as its string
    representation is. *)
Theorem extend_contract :
  (forall (s term : string), extend (KStr s) term = Ok (KStr (s +:+ term))) /\
  (forall (front : list key) (kn : key) (term : string),
      extend (KTuple (front ++ [kn])) term =
      rbind (extend kn term) (fun kn' => Ok (KTuple (front ++ [kn'])))) /\
  (forall (o : pyobject) (term : string),
      extend (KOther o) term = extend (KStr (py_str o)) term).
Proof.
  split; [reflexivity|]. split; [|reflexivity].
  intros front kn term.
  rewrite extend_tuple_unfold, map_last_snoc.
  destruct (extend kn term); reflexivity.
Qed.

(** C9.  The empty tuple cannot be extended: indexing its last
    component raises [IndexError], whatever the suffix. *)
Theorem extend_empty_tuple (term : string) :
  extend (KTuple []) term = Raise IndexError.
Proof. reflexivity. Qed.

(** The two examples of the docstring of [extend]. *)
Example extend_doctest_str : extend (KStr "x") ".dtype" = Ok (KStr "x.dtype").
Proof. reflexivity. Qed.

Example extend_doctest_tuple :
  extend (KTuple [KStr "a"; KStr "b"; KStr "c"]) ".dtype"
  = Ok (KTuple [KStr "a"; KStr "b"; KStr "c.dtype"]).
Proof. reflexivity. Qed.

(** ** The type descriptor codec *)

Section Codec.
Implicit Types (s : string) (p : prim) (d : dtype).

Lemma parse_dtype_token s :
  contains "["%char s = false ->
  parse_dtype s = rbind (np_dtype_token s) (fun p => Ok (DPrim p)).
Proof. unfold parse_dtype. by intros ->. Qed.

Lemma prim_str_bracket p : contains "["%char (prim_str p) = has_unit p.
Proof.
  destruct p as [| | |w o|w o|w o|w o|[u|] o|[u|] o];
    try destruct w; try destruct o; try destruct u; reflexivity.
Qed.

(** [np.dtype] reads every builtin descriptor back from its
    rendering. *)
Lemma np_dtype_token_prim_str p : np_dtype_token (prim_str p) = Ok p.
Proof.
  destruct p as [| | |w o|w o|w o|w o|[u|] o|[u|] o];
    try destruct w; try destruct o; try destruct u; vm_compute; reflexivity.
Qed.

(** The round trip through [parse_dtype] for the builtin descriptors
    that carry no unit. *)
Lemma parse_dtype_prim_str p :
  has_unit p = false -> parse_dtype (dtype_str (DPrim p)) = Ok (DPrim p).
Proof.
  intros Hu. simpl. rewrite parse_dtype_token.
  - by rewrite np_dtype_token_prim_str.
  - by rewrite prim_str_bracket.
Qed.
End Codec.

(** C6.  The round trip fails for a builtin descriptor with a unit: the
    rendering of [datetime64[ns]] contains a bracket, so [parse_dtype]
    evaluates it as an expression, and the name [datetime64] is unbound
    there. *)
Theorem parse_dtype_datetime64_ns :
  dtype_str (DPrim (PDatetime (Some Uns) Little)) = "datetime64[ns]" /\
  np_dtype (PStr "datetime64[ns]") = Ok (DPrim (PDatetime (Some Uns) Little)) /\
  parse_dtype (dtype_str (DPrim (PDatetime (Some Uns) Little)))
  = Raise (NameError "datetime64").
Proof. repeat split; reflexivity. Qed.

(** ** Structured descriptors through the codec *)

Section Structured.
Implicit Types (s rest : string) (f : string * prim)
  (fs : list (string * prim)) (ts : list token).

Lemma str_cons (c : ascii) (s1 s2 : string) :
  String c s1 +:+ s2 = String c (s1 +:+ s2).
Proof. reflexivity. Qed.

Lemma str_nil (s1 : string) : "" +:+ s1 = s1.
Proof. reflexivity. Qed.

Lemma str_nil_r (s1 : string) : s1 +:+ "" = s1.
Proof.
  induction s1 as [|c s1 IH]; [done|]. by rewrite str_cons, IH.
Qed.

Lemma string_app_assoc (s1 s2 s3 : string) :
  (s1 +:+ s2) +:+ s3 = s1 +:+ (s2 +:+ s3).
Proof.
  induction s1 as [|c s1 IH]; [done|]. by rewrite !str_cons, IH.
Qed.

(** Strings as a first character and a rest, appends nested to the
    right. *)
Ltac norm_str :=
  repeat (rewrite string_app_assoc || rewrite str_cons || rewrite str_nil).

(** Inside single quotes the lexer collects quotable characters up to
    the closing quote. *)
Lemma lex_quote s acc rest ts :
  all_chars quotable s = true ->
  lex LStart rest = Ok ts ->
  lex (LQuote "'"%char acc) (s +:+ String "'"%char rest)
  = Ok (TStr (acc +:+ s) :: ts).
Proof.
  revert acc. induction s as [|c s IH]; intros acc Hs Hrest.
  - rewrite str_nil, str_nil_r. simpl. by rewrite Hrest.
  - simpl in Hs. apply andb_true_iff in Hs as [Hc Hs].
    unfold quotable in Hc. apply andb_true_iff in Hc as [Hplain Hq].
    apply negb_true_iff in Hq.
    rewrite str_cons. simpl. rewrite Hq, Hplain. simpl.
    rewrite (IH _ Hs Hrest). unfold snoc.
    by rewrite string_app_assoc, str_cons, str_nil.
Qed.

Lemma is_word_quotable (c : ascii) : is_word c = true -> quotable c = true.
Proof.
  destruct c as [[] [] [] [] [] [] [] []]; vm_compute; congruence.
Qed.

Lemma all_chars_impl (P Q : ascii -> bool) s :
  (forall c, P c = true -> Q c = true) ->
  all_chars P s = true -> all_chars Q s = true.
Proof.
  intros HPQ. induction s as [|c s IH]; simpl; [done|].
  intros H. apply andb_true_iff in H as [Hc Hs].
  by rewrite (HPQ _ Hc), IH.
Qed.

Lemma prim_short_quotable (p : prim) : all_chars quotable (prim_short p) = true.
Proof.
  destruct p as [| | |w o|w o|w o|w o|[u|] o|[u|] o];
    try destruct w; try destruct o; try destruct u; reflexivity.
Qed.

(** The field formats are spellings that [np.dtype] reads back. *)
Lemma np_dtype_token_prim_short (p : prim) :
  np_dtype_token (prim_short p) = Ok p.
Proof.
  destruct p as [| | |w o|w o|w o|w o|[u|] o|[u|] o];
    try destruct w; try destruct o; try destruct u; vm_compute; reflexivity.
Qed.

(** The [repr] of a name made of letters, digits and underscores is
    the name between single quotes. *)
Lemma repr_char_word (c : ascii) :
  is_word c = true -> repr_char "'"%char c = String c "".
Proof.
  destruct c as [[] [] [] [] [] [] [] []]; vm_compute; congruence.
Qed.

Lemma contains_quote_word s :
  all_chars is_word s = true -> contains "'"%char s = false.
Proof.
  induction s as [|c s IH]; [done|]. simpl. intros H.
  apply andb_true_iff in H as [Hc Hs]. rewrite (IH Hs), orb_false_r.
  revert Hc. destruct c as [[] [] [] [] [] [] [] []]; vm_compute; congruence.
Qed.

Lemma repr_body_word s :
  all_chars is_word s = true -> repr_body "'"%char s = s +:+ "'".
Proof.
  induction s as [|c s IH]; [done|]. simpl. intros H.
  apply andb_true_iff in H as [Hc Hs].
  by rewrite (repr_char_word c Hc), (IH Hs), !str_cons, str_nil.
Qed.

Lemma py_repr_simple s :
  all_chars is_word s = true -> py_repr s = "'" +:+ s +:+ "'".
Proof.
  intros H. unfold py_repr. rewrite (contains_quote_word s H). cbn [andb].
  by rewrite (repr_body_word s H), str_cons, str_nil.
Qed.

(** Lexing the rendering of one field. *)
Lemma lex_field f rest ts :
  simple_name f.1 = true ->
  lex LStart rest = Ok ts ->
  lex LStart (field_str f +:+ rest) = Ok (field_tokens f ++ ts).
Proof.
  intros Hname Hrest. destruct f as [n p]. cbn [fst] in Hname.
  unfold simple_name in Hname. apply andb_true_iff in Hname as [_ Hname].
  unfold field_str, field_tokens. cbn [fst snd].
  rewrite (py_repr_simple n Hname).
  apply (all_chars_impl _ quotable _ is_word_quotable) in Hname.
  simpl. norm_str. simpl.
  rewrite (lex_quote n "" _ (TComma :: TStr (prim_short p) :: TRParen :: ts) Hname);
    [done|].
  simpl.
  rewrite (lex_quote (prim_short p) "" _ (TRParen :: ts) (prim_short_quotable p));
    [done|].
  simpl. by rewrite Hrest.
Qed.

(** Lexing the fields with their separators. *)
Lemma lex_fields fs rest ts :
  Forall (fun f => simple_name f.1 = true) fs ->
  lex LStart rest = Ok ts ->
  lex LStart (join ", " (map field_str fs) +:+ rest)
  = Ok (fields_tokens fs ++ ts).
Proof.
  intros Hfs Hrest. induction Hfs as [|f fs Hf Hfs IH]; [done|].
  destruct fs as [|f' fs].
  - simpl. by apply lex_field.
  - change (join ", " (map field_str (f :: f' :: fs)))
      with (field_str f +:+ ", " +:+ join ", " (map field_str (f' :: fs))).
    change (fields_tokens (f :: f' :: fs))
      with (field_tokens f ++ TComma :: fields_tokens (f' :: fs)).
    rewrite !string_app_assoc, <-app_assoc.
    apply lex_field; [done|]. norm_str.
    remember (join ", " (map field_str (f' :: fs))) as j.
    remember (fields_tokens (f' :: fs)) as tj.
    simpl. by rewrite IH.
Qed.

(** Parsing the tokens of one field, when what follows is not a
    subscript. *)
Lemma parse_field fuel f ts :
  5 <= fuel ->
  head ts <> Some TLBrack ->
  parse_expr fuel (field_tokens f ++ ts) = Some (field_expr f, ts).
Proof.
  intros Hfuel Hts.
  do 5 (destruct fuel as [|fuel]; [lia|]).
  destruct ts as [|[] ts]; try reflexivity. by destruct Hts.
Qed.

(** One step of [parse_items] on a field and what follows it. *)
Lemma parse_items_field fuel f ts :
  5 <= fuel ->
  head ts <> Some TLBrack ->
  parse_items (S fuel) TRBrack (field_tokens f ++ ts) =
  match ts with
  | TComma :: t' :: r' =>
      if decide (t' = TRBrack) then Some ([field_expr f], true, r')
      else
        match parse_items fuel TRBrack (t' :: r') with
        | Some (es, _, r'') => Some (field_expr f :: es, true, r'')
        | None => None
        end
  | t' :: r' =>
      if decide (t' = TRBrack) then Some ([field_expr f], false, r') else None
  | _ => None
  end.
Proof.
  intros Hfuel Hts.
  change (field_tokens f ++ ts) with (TLParen :: (tail (field_tokens f) ++ ts)).
  cbn [parse_items]. rewrite decide_False by discriminate.
  change (TLParen :: (tail (field_tokens f) ++ ts)) with (field_tokens f ++ ts).
  by rewrite parse_field.
Qed.

Lemma fields_tokens_head f fs :
  exists tl, fields_tokens (f :: fs) = TLParen :: tl.
Proof. destruct fs; simpl; eauto. Qed.

(** Parsing the tokens of the fields of a list up to its bracket. *)
Lemma parse_fields fuel fs ts :
  fs <> [] ->
  length fs + 5 <= fuel ->
  exists b,
    parse_items fuel TRBrack (fields_tokens fs ++ TRBrack :: ts)
    = Some (map field_expr fs, b, ts).
Proof.
  revert fuel. induction fs as [|f fs IH]; intros fuel Hne Hfuel; [done|].
  destruct fuel as [|fuel]; [simpl in Hfuel; lia|].
  simpl in Hfuel.
  destruct fs as [|f' fs].
  - exists false.
    change (fields_tokens [f]) with (field_tokens f).
    rewrite parse_items_field; [|lia|discriminate].
    by rewrite decide_True.
  - destruct (IH fuel) as [b Hb]; [done|simpl in *; lia|].
    destruct (fields_tokens_head f' fs) as [tl Htl].
    exists true.
    change (fields_tokens (f :: f' :: fs))
      with (field_tokens f ++ TComma :: fields_tokens (f' :: fs)).
    rewrite <-app_assoc.
    rewrite parse_items_field; [|simpl in *; lia|discriminate].
    rewrite Htl in Hb |- *.
    change ((TComma :: TLParen :: tl) ++ TRBrack :: ts)
      with (TComma :: TLParen :: (tl ++ TRBrack :: ts)).
    lazy beta iota.
    rewrite decide_False by discriminate.
    change (TLParen :: (tl ++ TRBrack :: ts))
      with ((TLParen :: tl) ++ TRBrack :: ts).
    by rewrite Hb.
Qed.

Lemma fields_tokens_length fs : 5 * length fs <= length (fields_tokens fs).
Proof.
  induction fs as [|f [|f' fs] IH]; simpl in *; lia.
Qed.

(** Evaluating the parsed field list. *)
Lemma eval_fields s fs :
  eval_expr s (EList (map field_expr fs)) = Ok (PList (map field_val fs)).
Proof.
  simpl. induction fs as [|f fs IH]; [done|]. simpl in *.
  destruct ((fix go (l : list pyexpr) : result (list pyval) := _)
              (map field_expr fs)) as [vs|e]; [|discriminate].
  simpl in *. by injection IH as ->.
Qed.

(** [eval] of the rendering of a structured descriptor gives its field
    list back. *)
Lemma py_eval_fields fs :
  Forall (fun f => simple_name f.1 = true) fs ->
  py_eval (dtype_str (DStruct fs)) = Ok (PList (map field_val fs)).
Proof.
  intros Hfs. unfold py_eval, dtype_str. rewrite str_cons, str_nil.
  remember (join ", " (map field_str fs) +:+ "]") as body.
  simpl. subst body.
  rewrite (lex_fields fs "]" [TRBrack] Hfs eq_refl). cbn [rbind app].
  destruct fs as [|f fs]; [reflexivity|].
  remember (length (TLBrack :: fields_tokens (f :: fs) ++ [TRBrack])) as fuel
    eqn:Hfuel.
  assert (Hbig : length (f :: fs) + 5 <= fuel).
  { pose proof (fields_tokens_length (f :: fs)) as Hlen.
    subst fuel. cbn [length]. rewrite length_app. simpl in *. lia. }
  destruct (parse_fields fuel (f :: fs) [] ltac:(done) Hbig) as [b ->].
  destruct fuel as [|fuel]; [simpl in Hbig; lia|].
  cbn [parse_subs]. apply eval_fields.
Qed.

Lemma rmap_field_of fs :
  rmap field_of (map field_val fs) = Ok fs.
Proof.
  induction fs as [|[n p] fs IH]; [done|].
  simpl. rewrite np_dtype_token_prim_short. simpl.
  simpl in IH. by rewrite IH.
Qed.

Lemma mem_simple_names fs :
  Forall (fun f => simple_name f.1 = true) fs -> mem "" (map fst fs) = false.
Proof.
  induction 1 as [|[n p] fs Hf _ IH]; [done|].
  simpl in *. rewrite IH. destruct n; [discriminate | reflexivity].
Qed.

(** The round trip of a structured descriptor: parsing its rendering
    gives the descriptor back. *)
Lemma parse_dtype_struct fs :
  wf_fields fs -> parse_dtype (dtype_str (DStruct fs)) = Ok (DStruct fs).
Proof.
  intros [Hnames Hdup]. unfold parse_dtype.
  replace (contains "["%char (dtype_str (DStruct fs))) with true by reflexivity.
  rewrite (py_eval_fields fs Hnames). cbn [rbind np_dtype].
  rewrite rmap_field_of. cbn [rbind].
  by rewrite (mem_simple_names fs Hnames), Hdup.
Qed.
End Structured.

(** The descriptors that the codec reads back: the builtin ones without
    a unit and the structured ones over distinct simple names. *)
Lemma parse_dtype_dtype_str (d : dtype) :
  match d with
  | DPrim p => has_unit p = false
  | DStruct fs => wf_fields fs
  end ->
  parse_dtype (dtype_str d) = Ok d.
Proof.
  destruct d as [p|fs]; [apply parse_dtype_prim_str | apply parse_dtype_struct].
Qed.





(** ** The memoised metadata lookup *)

Section Memo.
Implicit Types (p : path) (keys : pyseq) (get : get_fn) (lock : pyval)
  (kw : kwargs) (w : world) (r : list dtype).

Lemma rmap_Forall2 {A B} (f : A -> result B) (xs : list A) (ys : list B) :
  rmap f xs = Ok ys -> Forall2 (fun x y => f x = Ok y) xs ys.
Proof.
  revert ys. induction xs as [|x xs IH]; simpl; intros ys H.
  - injection H as <-. constructor.
  - apply rbind_ok in H as (y & Hy & H).
    apply rbind_ok in H as (ys' & Hys & H). injection H as <-.
    constructor; auto.
Qed.

Lemma rmap_length {A B} (f : A -> result B) (xs : list A) (ys : list B) :
  rmap f xs = Ok ys -> length ys = length xs.
Proof. intros H. symmetry. by eapply Forall2_length, rmap_Forall2. Qed.

(** A hit: the cached list, the state untouched, nothing called. *)
Lemma dtypes_hit p keys get lock kw w r :
  cache w !! (p, items keys) = Some r ->
  dtypes p keys get lock kw w = (Ok r, w).
Proof. unfold dtypes. by intros ->. Qed.

(** A miss that returns: one call of [get] on the extended keys, the
    answers parsed, the result stored in the cache. *)
Lemma dtypes_miss p keys get lock kw w r w1 :
  cache w !! (p, items keys) = None ->
  dtypes p keys get lock kw w = (Ok r, w1) ->
  exists dt_keys text w',
    rmap (fun k => extend k ".dtype") (items keys) = Ok dt_keys /\
    get p (PyList dt_keys) (("lock", lock) :: kw) w = (Ok text, w') /\
    rmap parse_dtype text = Ok r /\
    w1 = set_cache (insert (p, items keys) r) w'.
Proof.
  unfold dtypes, dtypes_body, bind, lift. intros ->.
  destruct (rmap _ (items keys)) as [dt_keys|e]; [|discriminate].
  destruct (get p _ _ w) as [[text|e] w'] eqn:Hget; [|discriminate].
  destruct (rmap parse_dtype text) as [r'|e] eqn:Hparse; [|discriminate].
  intros [= <- <-]. eauto 10.
Qed.

(** Whatever returned from [dtypes] is in the cache afterwards. *)
Lemma dtypes_cached p keys get lock kw w r w1 :
  dtypes p keys get lock kw w = (Ok r, w1) ->
  cache w1 !! (p, items keys) = Some r.
Proof.
  destruct (cache w !! (p, items keys)) as [r0|] eqn:Hc.
  - rewrite (dtypes_hit _ _ _ _ _ _ _ Hc). by intros [= <- <-].
  - intros H. apply dtypes_miss in H as (? & ? & w' & _ & _ & _ & ->); [|done].
    simpl. apply lookup_insert_eq.
Qed.
(** A miss on a store that holds a parseable descriptor string at
    every extended key returns: one batched read, logged with [lock]
    among its options, the parsed descriptors as the result, and the
    result stored in the cache. *)
Lemma dtypes_miss_returns p keys lock kw w (dt_keys : list key)
    (text : list string) r :
  cache w !! (p, items keys) = None ->
  rmap (fun k => extend k ".dtype") (items keys) = Ok dt_keys ->
  mapM (fun k => store w !! (p, k)) dt_keys = Some text ->
  rmap parse_dtype text = Ok r ->
  dtypes p keys core_get lock kw w =
  (Ok r, World (store w) (<[(p, items keys) := r]> (cache w))
           (calls w ++ [CallGet p (PyList dt_keys) (("lock", lock) :: kw)])).
Proof.
  intros Hc Hext Hget Hparse. unfold dtypes, dtypes_body. rewrite Hc.
  unfold bind, lift. rewrite Hext. unfold core_get. cbn [items].
  by rewrite Hget, Hparse.
Qed.

(** The descriptors come in the order of the keys. *)
Lemma descriptors_in_key_order p w (ks dt_keys : list key)
    (text : list string) r :
  rmap (fun k => extend k ".dtype") ks = Ok dt_keys ->
  mapM (fun k => store w !! (p, k)) dt_keys = Some text ->
  rmap parse_dtype text = Ok r ->
  Forall2 (fun k d => exists mk s,
             extend k ".dtype" = Ok mk /\ store w !! (p, mk) = Some s /\
             parse_dtype s = Ok d) ks r.
Proof.
  intros Hext Hvs Hparse.
  apply rmap_Forall2 in Hext, Hparse. apply mapM_Some in Hvs.
  revert text r Hvs Hparse.
  induction Hext as [|k mk ks mks Hk _ IH]; intros vs r Hvs Hparse.
  - inversion Hvs; subst. inversion Hparse; subst. constructor.
  - inversion Hvs as [|? s ? vs' Hs Hvs']; subst.
    inversion Hparse as [|? d ? r' Hd Hr']; subst.
    constructor; eauto.
Qed.
End Memo.

(** C4.  Memoisation of [dtypes] over the byte store.  A miss on a
    store that holds a descriptor string at the extension of every key,
    each of which [parse_dtype] reads, returns: it extended every key
    with [.dtype], made one batched read of the extended keys (with
    [lock] among the options), returned the parsed descriptors in the
    order of the keys, and left them in the cache.  And whenever a call
    returns, a second call with the same location and keys, made in the
    state the first call left or in any later state that still has its
    cache entry, returns the same list and leaves the state as it is:
    no call reaches the store; if the first call was a miss, the store
    held those descriptor strings. *)
Theorem dtypes_memoized (p : path) (keys : pyseq) (lock : pyval)
    (kw : kwargs) (w : world) :
  (forall (dt_keys : list key) (text : list string) (r : list dtype),
     cache w !! (p, items keys) = None ->
     rmap (fun k => extend k ".dtype") (items keys) = Ok dt_keys ->
     mapM (fun k => store w !! (p, k)) dt_keys = Some text ->
     rmap parse_dtype text = Ok r ->
     let w1 := World (store w) (<[(p, items keys) := r]> (cache w))
                 (calls w ++ [CallGet p (PyList dt_keys) (("lock", lock) :: kw)]) in
     dtypes p keys core_get lock kw w = (Ok r, w1) /\
     Forall2 (fun k d => exists mk s,
                extend k ".dtype" = Ok mk /\ store w !! (p, mk) = Some s /\
                parse_dtype s = Ok d) (items keys) r /\
     dtypes p keys core_get lock kw w1 = (Ok r, w1)) /\
  (forall (r : list dtype) (w1 : world),
     dtypes p keys core_get lock kw w = (Ok r, w1) ->
     (forall w2, cache w2 !! (p, items keys) = cache w1 !! (p, items keys) ->
        dtypes p keys core_get lock kw w2 = (Ok r, w2)) /\
     (cache w !! (p, items keys) = None ->
      exists dt_keys text,
        rmap (fun k => extend k ".dtype") (items keys) = Ok dt_keys /\
        mapM (fun k => store w !! (p, k)) dt_keys = Some text /\
        rmap parse_dtype text = Ok r /\
        w1 = World (store w) (<[(p, items keys) := r]> (cache w))
               (calls w ++ [CallGet p (PyList dt_keys) (("lock", lock) :: kw)]) /\
        Forall2 (fun k d => exists mk s,
                   extend k ".dtype" = Ok mk /\ store w !! (p, mk) = Some s /\
                   parse_dtype s = Ok d) (items keys) r)).
Proof.
  split.
  - intros dt_keys text r Hc Hext Hget Hparse w1. split; [|split].
    + exact (dtypes_miss_returns p keys lock kw w dt_keys text r
               Hc Hext Hget Hparse).
    + by apply (descriptors_in_key_order p w _ dt_keys text).
    + apply dtypes_hit. subst w1. cbn [cache]. apply lookup_insert_eq.
  - intros r w1 H. split.
    + intros w2 Hc. apply dtypes_hit. rewrite Hc. by eapply dtypes_cached.
    + intros Hmiss.
      apply dtypes_miss in H as (dt_keys & text & w' & Hext & Hget & Hparse & ->);
        [|done].
      unfold core_get in Hget. simpl in Hget.
      destruct (mapM _ dt_keys) as [vs|] eqn:Hvs; [|discriminate].
      injection Hget as <- <-.
      exists dt_keys, vs. repeat split; try done.
      by apply (descriptors_in_key_order p w _ dt_keys vs).
Qed.

(** A first call on an empty cache over a store with the metadata of
    two keys, then the second call. *)
Lemma dtypes_memoized_witness :
  let w := World {[("loc", KStr "x.dtype") := "int32";
                   ("loc", KStr "y.dtype") := "[('a', '<f8')]"]} ∅ [] in
  let r := [DPrim (PInt W4 Little); DStruct [("a", PFloat W8 Little)]] in
  let w1 := World (store w)
              {[("loc", [KStr "x"; KStr "y"]) := r]}
              [CallGet "loc" (PyList [KStr "x.dtype"; KStr "y.dtype"])
                 [("lock", PBoolean false)]] in
  dtypes "loc" (PyList [KStr "x"; KStr "y"]) core_get (PBoolean false) [] w
  = (Ok r, w1) /\
  dtypes "loc" (PyList [KStr "x"; KStr "y"]) core_get (PBoolean false) [] w1
  = (Ok r, w1).
Proof.
  intros w r w1.
  destruct (dtypes_memoized "loc" (PyList [KStr "x"; KStr "y"]) (PBoolean false)
              [] w) as [Hmiss Hhit].
  destruct (Hmiss [KStr "x.dtype"; KStr "y.dtype"] ["int32"; "[('a', '<f8')]"] r
              eq_refl eq_refl eq_refl eq_refl) as (Hrun & _ & _).
  split; [exact Hrun|].
  destruct (Hhit r _ Hrun) as [Hagain _]. by apply Hagain.
Defined.

(** C10.  The cache of [dtypes] is keyed by the location and the tuple
    of the keys and by nothing else: after a call that returned, a call
    with the same location and the same keys in order, be they a list
    or a tuple, made in the state that call left or in any later state
    that still has its cache entry, returns the cached list without
    touching the state, whatever its [get] function, its [lock] flag
    and its other options are. *)
Theorem dtypes_key_is_path_and_keys (p : path) (keys keys' : pyseq)
    (get get' : get_fn) (lock lock' : pyval) (kw kw' : kwargs)
    (w w1 : world) (r : list dtype) :
  items keys = items keys' ->
  dtypes p keys get lock kw w = (Ok r, w1) ->
  forall w2, cache w2 !! (p, items keys) = cache w1 !! (p, items keys) ->
    dtypes p keys' get' lock' kw' w2 = (Ok r, w2).
Proof.
  intros Hk H w2 Hc. apply dtypes_hit. rewrite <-Hk, Hc.
  by eapply dtypes_cached.
Qed.

(** ** Bulk store and load *)

Section Bulk.
Implicit Types (p : path) (k mk : key) (a : ndarray) (kw : kwargs)
  (w : world).

(** Storing one array: the data entry, then the metadata entry. *)
Lemma put_single p k mk a kw w :
  extend k ".dtype" = Ok mk ->
  put p [(k, a)] core_put kw w =
  (Ok tt,
   World (<[(p, mk) := dtype_str (arr_dtype a)]>
            (<[(p, k) := tobytes a]> (store w)))
         (cache w)
         (calls w ++ [CallPut p [(k, tobytes a)] kw;
                      CallEnsure p mk (dtype_str (arr_dtype a))])).
Proof.
  intros Hmk. unfold put. run. rewrite Hmk. run. by rewrite <-app_assoc.
Qed.

(** The view over the buffer of a well-formed array, through the
    descriptor of that array. *)
Lemma frombuffer_tobytes a :
  wf_array a ->
  np_frombuffer (tobytes a) (PDtype (arr_dtype a)) =
  Ok (NdArray [foldr Nat.mul 1 (arr_shape a)] (arr_dtype a) (tobytes a)).
Proof.
  intros [Hz Hlen]. unfold np_frombuffer, tobytes. cbn [np_dtype rbind].
  rewrite Hlen, Nat.Div0.mod_mul, Nat.div_mul by done.
  by destruct (Nat.eqb_spec (itemsize (arr_dtype a)) 0).
Qed.
End Bulk.

(** C1, under its preconditions.  Store then load gives back the bytes
    and the descriptor of the array when the items of the array have a
    size that is not zero, the key can be extended, the descriptor
    survives rendering and parsing, and the cache of [dtypes] holds
    nothing for the key at that location, or holds that descriptor. *)
Theorem put_get_roundtrip (p : path) (k mk : key) (a : ndarray)
    (kw kw' : kwargs) (w : world) :
  wf_array a ->
  extend k ".dtype" = Ok mk ->
  parse_dtype (dtype_str (arr_dtype a)) = Ok (arr_dtype a) ->
  cache w !! (p, [k]) = None \/ cache w !! (p, [k]) = Some [arr_dtype a] ->
  roundtrip_at p k a kw kw' w.
Proof.
  intros Hwf Hmk Hparse Hcache. unfold roundtrip_at.
  assert (Hne : mk <> k) by (by apply (extend_ne k ".dtype" mk)).
  destruct Hcache as [Hc | Hc]; do 3 eexists;
    (split; [apply (put_single _ _ _ _ _ _ Hmk)|]);
    unfold get; run;
    rewrite lookup_insert_ne, lookup_insert_eq by congruence; run;
    unfold dtypes; run; rewrite Hc.
  - unfold dtypes_body. run.
    rewrite Hmk. run. rewrite lookup_insert_eq. run.
    rewrite Hparse. run. rewrite frombuffer_tobytes by done. run.
    split; [reflexivity|]. done.
  - run. rewrite frombuffer_tobytes by done. run.
    split; [reflexivity|]. done.
Qed.

Lemma put_get_roundtrip_witness :
  roundtrip_at "loc" (KStr "x") sample_int32 [] [] empty_world.
Proof.
  apply (put_get_roundtrip "loc" (KStr "x") (KStr "x.dtype")).
  - split; simpl; [discriminate | reflexivity].
  - reflexivity.
  - reflexivity.
  - left. reflexivity.
Defined.

(** C1 as stated fails, and each precondition is needed.  The round
    trip fails:
    - after a first store and load of ["x"] as [int32], for a [float64]
      array stored under ["x"]: the view has the cached descriptor;
    - in a fresh process for an array of [datetime64[ns]]:
      [parse_dtype] raises on the rendering of its descriptor;
    - for the key [()], which cannot be extended: [put] raises;
    - for an array of [dtype([])], whose items have no bytes:
      [np.frombuffer] rejects the descriptor. *)
Lemma put_get_roundtrip_fails :
  ~ roundtrip_at "loc" (KStr "x") sample_float64 [] [] world_after_first_load /\
  ~ roundtrip_at "loc" (KStr "t") sample_datetime [] [] empty_world /\
  ~ roundtrip_at "loc" (KTuple []) sample_int32 [] [] empty_world /\
  ~ roundtrip_at "loc" (KStr "x") sample_empty_record [] [] empty_world.
Proof.
  repeat split; intros (w1 & w2 & a' & Hput & Hget & _ & Hd).
  - assert (Hw1 : w1 = (put "loc" [(KStr "x", sample_float64)] core_put []
                          world_after_first_load).2) by (by rewrite Hput).
    subst w1. apply (f_equal fst) in Hget.
    assert (E : (get "loc" (PyList [KStr "x"]) core_get []
                   (put "loc" [(KStr "x", sample_float64)] core_put []
                      world_after_first_load).2).1
                = Ok [NdArray [2] (DPrim (PInt W4 Little)) "ABCDEFGH"])
      by (vm_compute; reflexivity).
    rewrite E in Hget. simpl in Hget. injection Hget as <-. discriminate.
  - assert (Hw1 : w1 = (put "loc" [(KStr "t", sample_datetime)] core_put []
                          empty_world).2) by (by rewrite Hput).
    subst w1. apply (f_equal fst) in Hget.
    assert (E : (get "loc" (PyList [KStr "t"]) core_get []
                   (put "loc" [(KStr "t", sample_datetime)] core_put []
                      empty_world).2).1
                = Raise (NameError "datetime64"))
      by (vm_compute; reflexivity).
    rewrite E in Hget. discriminate.
  - apply (f_equal fst) in Hput. discriminate.
  - assert (Hw1 : w1 = (put "loc" [(KStr "x", sample_empty_record)] core_put []
                          empty_world).2) by (by rewrite Hput).
    subst w1. apply (f_equal fst) in Hget.
    assert (E : (get "loc" (PyList [KStr "x"]) core_get []
                   (put "loc" [(KStr "x", sample_empty_record)] core_put []
                      empty_world).2).1
                = Raise NumpyError)
      by (vm_compute; reflexivity).
    rewrite E in Hget. discriminate.
Qed.

(** Each of these four inputs breaks one precondition of the round trip
    and meets the others. *)
Lemma roundtrip_failures_break_one_precondition :
  (wf_array sample_float64 /\
   extend (KStr "x") ".dtype" = Ok (KStr "x.dtype") /\
   parse_dtype (dtype_str (arr_dtype sample_float64))
   = Ok (arr_dtype sample_float64) /\
   cache world_after_first_load !! ("loc", [KStr "x"])
   = Some [arr_dtype sample_int32]) /\
  (wf_array sample_datetime /\
   extend (KStr "t") ".dtype" = Ok (KStr "t.dtype") /\
   parse_dtype (dtype_str (arr_dtype sample_datetime))
   = Raise (NameError "datetime64") /\
   cache empty_world !! ("loc", [KStr "t"]) = None) /\
  (wf_array sample_int32 /\
   extend (KTuple []) ".dtype" = Raise IndexError /\
   parse_dtype (dtype_str (arr_dtype sample_int32))
   = Ok (arr_dtype sample_int32) /\
   cache empty_world !! ("loc", [KTuple []]) = None) /\
  (itemsize (arr_dtype sample_empty_record) = 0 /\
   String.length (arr_data sample_empty_record)
   = foldr Nat.mul 1 (arr_shape sample_empty_record)
     * itemsize (arr_dtype sample_empty_record) /\
   extend (KStr "x") ".dtype" = Ok (KStr "x.dtype") /\
   parse_dtype (dtype_str (arr_dtype sample_empty_record))
   = Ok (arr_dtype sample_empty_record) /\
   cache empty_world !! ("loc", [KStr "x"]) = None).
Proof. repeat split; try discriminate; vm_compute; reflexivity. Qed.

(** A key that cannot be extended: the data is written, then the store
    of the metadata raises. *)
Lemma put_empty_tuple (p : path) (a : ndarray) (kw : kwargs) (w : world) :
  (put p [(KTuple [], a)] core_put kw w).1 = Raise IndexError.
Proof. reflexivity. Qed.

Lemma dtypes_key_is_path_and_keys_witness :
  let w := World {[("loc", KStr "x.dtype") := "int32"]} ∅ [] in
  let w1 := (dtypes "loc" (PyList [KStr "x"]) core_get (PBoolean false) [] w).2 in
  dtypes "loc" (PyTuple [KStr "x"]) (fun _ _ _ => lift (Raise KeyError))
    (PBoolean true) [("flag", PStr "on")] w1
  = (Ok [DPrim (PInt W4 Little)], w1).
Proof.
  intros w w1.
  apply (dtypes_key_is_path_and_keys "loc" (PyList [KStr "x"])
           (PyTuple [KStr "x"]) core_get _ (PBoolean false) _ [] _ w w1).
  - reflexivity.
  - vm_compute. reflexivity.
  - reflexivity.
Defined.

(** ** The wrapper object *)

Section Wrapper.
Implicit Types (p : path) (h : handle) (keys : pyseq) (kw : kwargs)
  (w : world).

Lemma bind_ok {A B} (c : M A) (f : A -> M B) w a w' :
  c w = (Ok a, w') -> bind c f w = f a w'.
Proof. unfold bind. by intros ->. Qed.

Lemma for_each_iset p (data : list (string * ndarray)) w :
  exists w',
    for_each (str_keys data) (fun kv =>
      let* mk := lift (key_add kv.1 ".dtype") in
      h_iset (store_handle p) mk (dtype_str (arr_dtype kv.2))) w = (Ok tt, w') /\
    calls w' = calls w ++ iset_calls p data /\
    cache w' = cache w.
Proof.
  revert w. induction data as [|[s a] data IH]; intros w; simpl.
  - exists w. by rewrite app_nil_r.
  - run.
    destruct (IH (World (<[(p, KStr (s +:+ ".dtype")) := dtype_str (arr_dtype a)]> (store w))
                    (cache w)
                    (calls w ++ [CallIset p (KStr (s +:+ ".dtype"))
                                   (dtype_str (arr_dtype a))])))
      as (w' & Hrun & Hcalls & Hcache).
    exists w'. split; [exact Hrun|]. split; [|exact Hcache].
    rewrite Hcalls. simpl. by rewrite <-app_assoc.
Qed.

(** For string keys, where [k + '.dtype'] is [extend(k, '.dtype')],
    [append] first sets the metadata of every entry and then makes one
    batched append of the bytes. *)
Lemma append_str_keys p (data : list (string * ndarray)) kw w :
  exists w',
    append (MkPartdNumpy (store_handle p)) (str_keys data) kw w = (Ok tt, w') /\
    calls w' =
      calls w ++ iset_calls p data
      ++ [CallAppend p (map (fun kv => (kv.1, tobytes kv.2)) (str_keys data)) kw].
Proof.
  destruct (for_each_iset p data w) as (w1 & Hrun & Hcalls & _).
  unfold append. cbn [partd]. rewrite (bind_ok _ _ _ _ _ Hrun).
  eexists. split; [reflexivity|]. simpl. by rewrite Hcalls, <-app_assoc.
Qed.

(** Removing a list of keys at a location from the store. *)
Lemma lookup_delete_keys p (ks : list key) (m : gmap (path * key) string) q k :
  foldr (fun k m => base.delete (p, k) m) m ks !! (q, k) =
  if decide (q = p /\ k ∈ ks) then None else m !! (q, k).
Proof.
  induction ks as [|k0 ks IH]; simpl.
  - case_decide as H; [|done]. destruct H as [_ H]. by apply elem_of_nil in H.
  - rewrite lookup_delete.
    destruct (decide ((p, k0) = (q, k))) as [E|E].
    + injection E as <- <-. rewrite decide_True; [done|]. split; [done|]. left.
    + rewrite IH.
      destruct (decide (q = p /\ k ∈ ks)) as [[-> Hk]|Hn].
      * rewrite decide_True; [done|]. split; [done|]. by right.
      * rewrite decide_False; [done|]. intros [-> Hk].
        apply elem_of_cons in Hk as [->|Hk]; [by apply E|]. by apply Hn.
Qed.

(** What [_get] does on the handle of a location: two reads, the
    second of the extended keys with [lock=False], nothing taken from
    the cache, and the views built from the raw strings. *)
Lemma _get_store_handle p keys kw w dt_keys :
  rmap (fun k => extend k ".dtype") (items keys) = Ok dt_keys ->
  forall bytes texts,
  mapM (fun k => store w !! (p, k)) (items keys) = Some bytes ->
  mapM (fun k => store w !! (p, k)) dt_keys = Some texts ->
  _get (MkPartdNumpy (store_handle p)) keys kw w =
  (map2r np_frombuffer bytes (map PStr texts),
   World (store w) (cache w)
     (calls w ++ [CallGet p keys kw;
                  CallGet p (PyList dt_keys) [("lock", PBoolean false)]])).
Proof.
  intros Hext bytes texts Hb Ht. unfold _get. run.
  rewrite Hb. run. rewrite Hext. run. rewrite Ht. run.
  by rewrite <-app_assoc.
Qed.
End Wrapper.

(** C3.  [append] does not write the metadata at [extend(key,
    '.dtype')]: it computes the metadata key as [k + '.dtype'].  For the
    tuple key [('a', 'b')], whose extension is [('a', 'b.dtype')], that
    sum raises [TypeError] before anything reaches the handle: no
    descriptor is written and no bytes are appended, whatever the
    handle, the array and the state are. *)
Theorem append_tuple_key_raises :
  extend (KTuple [KStr "a"; KStr "b"]) ".dtype"
  = Ok (KTuple [KStr "a"; KStr "b.dtype"]) /\
  forall (h : handle) (a : ndarray) (kw : kwargs) (w : world),
    append (MkPartdNumpy h) [(KTuple [KStr "a"; KStr "b"], a)] kw w
    = (Raise TypeError, w).
Proof. split; reflexivity. Qed.

(** C7.  [_get] does not parse the descriptor strings with
    [parse_dtype]: it hands them to [np.frombuffer] as they are.  After
    appending a record array under ["x"], the stored descriptor string
    is a field list, which [parse_dtype] reads back, and [_get] raises
    on it. *)
Theorem _get_record_raises :
  store world_after_append_record !! ("loc", KStr "x.dtype")
  = Some "[('a', '<i4')]" /\
  parse_dtype "[('a', '<i4')]" = Ok (arr_dtype sample_record) /\
  np_frombuffer (tobytes sample_record) (PDtype (arr_dtype sample_record))
  = Ok sample_record /\
  (_get (MkPartdNumpy (store_handle "loc")) (PyList [KStr "x"]) []
     world_after_append_record).1 = Raise NumpyError.
Proof. repeat split; vm_compute; reflexivity. Qed.

(** C8, under its preconditions.  When every key can be extended,
    [delete] on the
    handle of a location returns, removes the entries at the extended
    keys and changes no other entry of the store; the data entry at a
    key of the sequence that is not itself the extension of one of the
    keys is as it was, and so is the outcome of reading it. *)
Theorem delete_frame (p : path) (keys : pyseq) (kw : kwargs) (w : world)
    (dt_keys : list key) :
  rmap (fun k => extend k ".dtype") (items keys) = Ok dt_keys ->
  exists w',
    delete (MkPartdNumpy (store_handle p)) keys kw w = (Ok tt, w') /\
    (forall q k,
        store w' !! (q, k) =
        if decide (q = p /\ k ∈ dt_keys) then None else store w !! (q, k)) /\
    (forall k, k ∈ items keys -> k ∉ dt_keys ->
        store w' !! (p, k) = store w !! (p, k) /\
        (h_get (store_handle p) (PyList [k]) [] w').1
        = (h_get (store_handle p) (PyList [k]) [] w).1).
Proof.
  intros Hext. unfold delete. run. rewrite Hext. run.
  eexists. split; [reflexivity|]. simpl.
  assert (Hlook : forall q k,
    foldr (fun k m => base.delete (p, k) m) (store w) dt_keys !! (q, k) =
    if decide (q = p /\ k ∈ dt_keys) then None else store w !! (q, k))
    by (intros; apply lookup_delete_keys).
  split; [exact Hlook|].
  intros k _ Hk.
  assert (E : foldr (fun k m => base.delete (p, k) m) (store w) dt_keys !! (p, k)
              = store w !! (p, k)).
  { rewrite Hlook. apply decide_False. by intros [_ ?]. }
  split; [exact E|]. by rewrite E.
Qed.

Lemma delete_frame_witness :
  delete_keeps_data "loc" (PyList [KStr "x"]) [] world_after_append.
Proof.
  destruct (delete_frame "loc" (PyList [KStr "x"]) [] world_after_append
              [KStr "x.dtype"] eq_refl) as (w' & Hdel & _ & Hdata).
  exists w'. split; [exact Hdel|].
  intros k Hk. apply Hdata; [exact Hk|].
  apply list_elem_of_singleton in Hk as ->.
  intros H. apply list_elem_of_singleton in H. discriminate.
Defined.

(** C8 fails for a sequence in which one key is the metadata key of
    another: deleting [["x", "x.dtype"]] removes the entry at
    ["x.dtype"], which is the data entry of the second key, and reading
    that key afterwards raises. *)
Lemma delete_removes_data_entry :
  ~ delete_keeps_data "loc" (PyList [KStr "x"; KStr "x.dtype"]) []
      world_after_append.
Proof.
  intros (w' & Hdel & Hdata).
  assert (Hw' : w' = (delete (MkPartdNumpy (store_handle "loc"))
                        (PyList [KStr "x"; KStr "x.dtype"]) []
                        world_after_append).2) by (by rewrite Hdel).
  destruct (Hdata (KStr "x.dtype")) as [Hstore _].
  { right. left. }
  subst w'. vm_compute in Hstore. discriminate.
Qed.

(** A key that cannot be extended: [delete] raises and removes
    nothing. *)
Lemma delete_empty_tuple (h : handle) (kw : kwargs) (w : world) :
  delete (MkPartdNumpy h) (PyList [KTuple []]) kw w = (Raise IndexError, w).
Proof. reflexivity. Qed.

(** * Further properties *)

(** ** Key extension *)

Section KeyExtensionMore.
Implicit Types (k : key) (ks : list key) (term : string).

Lemma last_leaf_snoc ks k : last_leaf (KTuple (ks ++ [k])) = last_leaf k.
Proof.
  simpl. induction ks as [|k0 ks IH]; [done|].
  simpl. destruct (ks ++ [k]) eqn:E; [by destruct ks|]. exact IH.
Qed.

Lemma extend_snoc ks k term :
  extend (KTuple (ks ++ [k])) term =
  rbind (extend k term) (fun k' => Ok (KTuple (ks ++ [k']))).
Proof.
  rewrite extend_tuple_unfold, map_last_snoc. by destruct (extend k term).
Qed.

Lemma string_app_inv_tail (s1 s2 t : string) :
  s1 +:+ t = s2 +:+ t -> s1 = s2.
Proof.
  revert s2. induction s1 as [|c s1 IH]; intros [|c2 s2] H.
  - done.
  - apply (f_equal String.length) in H.
    rewrite str_nil, str_cons in H. simpl in H.
    rewrite string_app_length in H. lia.
  - apply (f_equal String.length) in H.
    rewrite str_nil, str_cons in H. simpl in H.
    rewrite string_app_length in H. lia.
  - rewrite !str_cons in H. injection H as -> H. by rewrite (IH _ H).
Qed.
Lemma extend_last_leaf k term :
  match last_leaf k with
  | Some _ => exists k', extend k term = Ok k'
  | None => extend k term = Raise IndexError
  end.
Proof.
  induction k as [s|ks IH|o] using key_ind; [simpl; eauto| |simpl; eauto].
  induction ks as [|k ks _] using rev_ind; [reflexivity|].
  rewrite last_leaf_snoc, extend_snoc.
  apply Forall_app in IH as [_ IH]. apply Forall_inv in IH.
  destruct (last_leaf k); cbv beta iota in IH.
  - destruct IH as [k' ->]. simpl. eauto.
  - by rewrite IH.
Qed.

(** A sequence with a key that cannot be extended: the extension of
    the sequence raises [IndexError]. *)
Lemma rmap_extend_raise ks term :
  Exists (fun k => last_leaf k = None) ks ->
  rmap (fun k => extend k term) ks = Raise IndexError.
Proof.
  induction 1 as [k ks Hk|k ks _ IH]; simpl.
  - pose proof (extend_last_leaf k term) as H. rewrite Hk in H. by rewrite H.
  - pose proof (extend_last_leaf k term) as H.
    destruct (last_leaf k); [destruct H as [k' ->]|by rewrite H].
    simpl. by rewrite IH.
Qed.
End KeyExtensionMore.

(** X1.  The metadata key is never the data key: extending a key with
    a non-empty suffix gives a key different from it, so the descriptor
    of an array is never written over its bytes. *)
Theorem extend_key_differs (k k' : key) (term : string) :
  term <> "" -> extend k term = Ok k' -> k' <> k.
Proof. apply extend_ne. Qed.

Lemma extend_key_differs_witness :
  KTuple [KStr "a"; KStr "b.dtype"] <> KTuple [KStr "a"; KStr "b"].
Proof.
  apply (extend_key_differs (KTuple [KStr "a"; KStr "b"]) _ ".dtype").
  - discriminate.
  - reflexivity.
Defined.

(** X2.  [extend] fails in one way only: it returns a key exactly when
    the key has a last component to extend, and raises [IndexError]
    when an empty tuple stands where that component should be, at any
    depth. *)
Theorem extend_ok_iff_last_leaf (k : key) (term : string) :
  match last_leaf k with
  | Some _ => exists k', extend k term = Ok k'
  | None => extend k term = Raise IndexError
  end.
Proof. apply extend_last_leaf. Qed.

(** X3.  Extending twice is extending once with the two suffixes
    joined: [extend(extend(k, s), t)] is [extend(k, s + t)], failures
    included. *)
Theorem extend_compose (k : key) (s t : string) :
  rbind (extend k s) (fun k' => extend k' t) = extend k (s +:+ t).
Proof.
  induction k as [s0|ks IH|o] using key_ind.
  - simpl. by rewrite string_app_assoc.
  - induction ks as [|k ks _] using rev_ind; [reflexivity|].
    apply Forall_app in IH as [_ IH]. apply Forall_inv in IH.
    rewrite !extend_snoc, <-IH.
    destruct (extend k s) as [k1|e]; [|reflexivity].
    cbn [rbind]. by rewrite extend_snoc.
  - simpl. by rewrite string_app_assoc.
Qed.

(** X4.  Two keys that end in a string component and have the same
    extension are the same key: distinct arrays get distinct metadata
    keys. *)
Theorem extend_injective (k1 k2 m : key) (term : string) (s1 s2 : string) :
  last_leaf k1 = Some (inl s1) ->
  last_leaf k2 = Some (inl s2) ->
  extend k1 term = Ok m ->
  extend k2 term = Ok m ->
  k1 = k2.
Proof.
  revert k2 m.
  induction k1 as [a|ks IH|o] using key_ind; intros k2 m H1 H2 E1 E2.
  - simpl in E1. injection E1 as <-.
    destruct k2 as [b|ks2|o2]; simpl in *.
    + injection E2 as E2. by rewrite (string_app_inv_tail _ _ _ E2).
    + apply rbind_ok in E2 as (? & _ & [=]).
    + discriminate.
  - induction ks as [|k ks _] using rev_ind; [discriminate|].
    apply Forall_app in IH as [_ IH]. apply Forall_inv in IH.
    rewrite last_leaf_snoc in H1. rewrite extend_snoc in E1.
    apply rbind_ok in E1 as (k' & Ek & [= <-]).
    destruct k2 as [b|ks2|o2]; [discriminate| |discriminate].
    induction ks2 as [|j ks2 _] using rev_ind; [discriminate|].
    rewrite last_leaf_snoc in H2. rewrite extend_snoc in E2.
    apply rbind_ok in E2 as (j' & Ej & [= E]).
    apply app_inj_tail in E as [-> ->].
    by rewrite (IH j k' H1 H2 Ek Ej).
  - discriminate.
Qed.

Lemma extend_injective_witness :
  KTuple [KStr "a"; KStr "b"] = KTuple [KStr "a"; KStr "b"].
Proof.
  apply (extend_injective _ _ (KTuple [KStr "a"; KStr "b.dtype"]) ".dtype" "b" "b");
    reflexivity.
Defined.

(** ** The descriptor codec *)

(** X5.  The descriptor codec round trip: [parse_dtype(str(d))] is [d]
    for every builtin descriptor without a unit, in either byte order,
    and for every structured descriptor whose field names are distinct
    and made of letters, digits and underscores. *)
Theorem parse_dtype_roundtrip (d : dtype) :
  match d with
  | DPrim p => has_unit p = false
  | DStruct fs => wf_fields fs
  end ->
  parse_dtype (dtype_str d) = Ok d.
Proof. apply parse_dtype_dtype_str. Qed.

Lemma parse_dtype_roundtrip_witness :
  parse_dtype (dtype_str (DStruct [("a", PInt W4 Little); ("b", PFloat W8 Big)]))
  = Ok (DStruct [("a", PInt W4 Little); ("b", PFloat W8 Big)]).
Proof.
  apply (parse_dtype_roundtrip
           (DStruct [("a", PInt W4 Little); ("b", PFloat W8 Big)])).
  split; [|reflexivity]. repeat constructor.
Defined.

(** X6.  No builtin descriptor with a unit survives the codec.  For
    every datetime and timedelta descriptor in native byte order with a
    unit other than [as] (a reserved word, on which the evaluation
    stops earlier), the rendering has a bracket, [parse_dtype]
    evaluates it as an expression, and the evaluation raises
    [NameError] on the type name, although [np.dtype] reads the same
    rendering back. *)
Theorem parse_dtype_unit_raises (u : tunit) :
  u <> Uas ->
  let dt := PDatetime (Some u) Little in
  let td := PTimedelta (Some u) Little in
  np_dtype (PStr (dtype_str (DPrim dt))) = Ok (DPrim dt) /\
  np_dtype (PStr (dtype_str (DPrim td))) = Ok (DPrim td) /\
  parse_dtype (dtype_str (DPrim dt)) = Raise (NameError "datetime64") /\
  parse_dtype (dtype_str (DPrim td)) = Raise (NameError "timedelta64").
Proof.
  intros Hu. destruct u; try (by destruct Hu);
    repeat split; vm_compute; reflexivity.
Qed.

Lemma parse_dtype_unit_raises_witness :
  parse_dtype "timedelta64[s]" = Raise (NameError "timedelta64").
Proof.
  apply (parse_dtype_unit_raises Us). discriminate.
Defined.

(** ** The memoised lookup and the bulk functions, for any store *)

Section BulkMore.
Implicit Types (p : path) (keys : pyseq) (get : get_fn) (lock : pyval)
  (kw : kwargs) (w : world).

(** The metadata loop of [put] never touches the cache; it logs the
    writes it made and stops at the first key that cannot be
    extended. *)
Lemma put_loop p (data : list (key * ndarray)) w :
  exists w',
    for_each data (fun kv =>
      let* mk := lift (extend kv.1 ".dtype") in
      core_ensure p mk (dtype_str (arr_dtype kv.2))) w
    = (match rmap (fun kv => extend kv.1 ".dtype") data with
       | Ok _ => Ok tt
       | Raise e => Raise e
       end, w') /\
    calls w' = calls w ++ ensure_calls p data /\
    cache w' = cache w.
Proof.
  set (body := fun kv : key * ndarray => _).
  assert (Hbody : forall kv u, body kv u =
    match extend kv.1 ".dtype" with
    | Ok mk =>
        (Ok tt, World (<[(p, mk) := dtype_str (arr_dtype kv.2)]> (store u))
                  (cache u)
                  (calls u ++ [CallEnsure p mk (dtype_str (arr_dtype kv.2))]))
    | Raise e => (Raise e, u)
    end).
  { intros kv u. unfold body. run. by destruct (extend kv.1 ".dtype"). }
  clearbody body. revert w.
  induction data as [|[k a] data IH]; intros w.
  - exists w. simpl. by rewrite app_nil_r.
  - cbn [for_each rmap ensure_calls]. unfold bind. rewrite Hbody. cbn [fst snd].
    destruct (extend k ".dtype") as [mk|e]; cbn [rbind].
    + match goal with |- context [for_each data body ?w1] =>
        destruct (IH w1) as (w' & -> & Hcalls & Hcache) end.
      exists w'. split.
      * by destruct (rmap _ data).
      * split; [|exact Hcache]. rewrite Hcalls. simpl. by rewrite <-app_assoc.
    + exists w. by rewrite app_nil_r.
Qed.

(** The views that [np.frombuffer] builds over a list of buffers and a
    list of descriptor arguments: one view per pair, up to the end of
    the shorter list; each view is flat, holds its buffer as it is and
    has the descriptor that [np.dtype] makes of its argument. *)
Lemma map2r_frombuffer (bytes : list string) (vs : list pyval)
    (arrs : list ndarray) :
  map2r np_frombuffer bytes vs = Ok arrs ->
  length arrs = min (length bytes) (length vs) /\
  map tobytes arrs = take (length arrs) bytes /\
  Forall2 (fun a v => np_dtype v = Ok (arr_dtype a)) arrs
    (take (length arrs) vs) /\
  Forall (fun a =>
    arr_shape a = [String.length (arr_data a) / itemsize (arr_dtype a)]) arrs.
Proof.
  revert vs arrs.
  induction bytes as [|b bytes IH]; intros [|v vs] arrs H; simpl in H;
    try (injection H as <-; by repeat split; constructor).
  apply rbind_ok in H as (a & Ha & H).
  apply rbind_ok in H as (arrs' & Harrs & [= <-]).
  destruct (IH _ _ Harrs) as (Hlen & Hb & Hd & Hs).
  unfold np_frombuffer in Ha. apply rbind_ok in Ha as (dt & Hdt & Ha).
  destruct (itemsize dt =? 0)%nat; [discriminate|].
  destruct (String.length b mod itemsize dt =? 0)%nat; [|discriminate].
  injection Ha as <-. simpl. repeat split.
  - by rewrite Hlen.
  - by rewrite Hb.
  - by constructor.
  - by constructor.
Qed.

(** The descriptors of the views when the arguments are descriptors. *)
Lemma Forall2_np_dtype_PDtype (arrs : list ndarray) (dts : list dtype) (n : nat) :
  Forall2 (fun a v => np_dtype v = Ok (arr_dtype a)) arrs
    (take n (map PDtype dts)) ->
  map arr_dtype arrs = take n dts.
Proof.
  revert dts n. induction arrs as [|a arrs IH]; intros dts n H.
  - destruct n, dts; simpl in *; try done; inversion H.
  - destruct n, dts as [|d dts]; simpl in *; try (by inversion H).
    inversion H as [|? ? ? ? E H']; subst. injection E as ->.
    f_equal. by apply IH.
Qed.
End BulkMore.

(** X7.  What [dtypes] does to its cache, for any read function that
    leaves the cache alone: a call that raises changes nothing in the
    cache, and a call that returns leaves the cache with its result
    under the pair of the location and the tuple of the keys and with
    every other entry as it was. *)
Theorem dtypes_cache_frame (p : path) (keys : pyseq) (get : get_fn)
    (lock : pyval) (kw : kwargs) (w : world) :
  (forall q ks kws u, cache (get q ks kws u).2 = cache u) ->
  cache (dtypes p keys get lock kw w).2 =
  match (dtypes p keys get lock kw w).1 with
  | Ok ds => <[(p, items keys) := ds]> (cache w)
  | Raise _ => cache w
  end.
Proof.
  intros Hget. unfold dtypes.
  destruct (cache w !! (p, items keys)) as [r|] eqn:Hc; simpl.
  - by rewrite insert_id.
  - unfold dtypes_body. run.
    destruct (rmap _ (items keys)) as [mks|e]; run; [|done].
    specialize (Hget p (PyList mks) (("lock", lock) :: kw) w).
    destruct (get p (PyList mks) (("lock", lock) :: kw) w) as [[text|e] w1];
      simpl in *; [|done].
    destruct (rmap parse_dtype text); simpl; by rewrite Hget.
Qed.

Lemma dtypes_cache_frame_witness :
  cache (dtypes "loc" (PyList [KStr "x"]) core_get (PBoolean false) []
           empty_world).2 = ∅.
Proof.
  apply (dtypes_cache_frame "loc" (PyList [KStr "x"]) core_get
           (PBoolean false) [] empty_world).
  reflexivity.
Defined.

(** X8.  A key that cannot be extended stops [dtypes] before it reads
    anything: when the cache holds nothing for the keys and one of them
    is or ends in an empty tuple, [dtypes] raises [IndexError] without
    calling the read function, and the state is as it was. *)
Theorem dtypes_unextendable (p : path) (keys : pyseq) (get : get_fn)
    (lock : pyval) (kw : kwargs) (w : world) :
  cache w !! (p, items keys) = None ->
  Exists (fun k => last_leaf k = None) (items keys) ->
  dtypes p keys get lock kw w = (Raise IndexError, w).
Proof.
  intros Hc Hk. unfold dtypes, dtypes_body. rewrite Hc. run.
  by rewrite (rmap_extend_raise _ _ Hk).
Qed.

Lemma dtypes_unextendable_witness :
  dtypes "loc" (PyTuple [KStr "x"; KTuple [KStr "a"; KTuple []]]) core_get
    (PBoolean false) [] empty_world = (Raise IndexError, empty_world).
Proof.
  apply (dtypes_unextendable "loc"
           (PyTuple [KStr "x"; KTuple [KStr "a"; KTuple []]])).
  - reflexivity.
  - right. left. reflexivity.
Defined.

(** X9.  [put] does not undo what it did.  Once the store function has
    returned, [put] records the descriptors in the order of the
    entries, one [core.ensure] each, and stops at the first key that
    cannot be extended: it then raises [IndexError] with the data of
    every entry and the descriptors of the earlier entries written.
    The cache of [dtypes] is not touched. *)
Theorem put_trace (p : path) (data : list (key * ndarray)) (put_f : put_fn)
    (kw : kwargs) (w w1 : world) :
  put_f p (map (fun kv => (kv.1, tobytes kv.2)) data) kw w = (Ok tt, w1) ->
  (put p data put_f kw w).1 =
    match rmap (fun kv => extend kv.1 ".dtype") data with
    | Ok _ => Ok tt
    | Raise e => Raise e
    end /\
  calls (put p data put_f kw w).2 = calls w1 ++ ensure_calls p data /\
  cache (put p data put_f kw w).2 = cache w1.
Proof.
  intros Hput. unfold put. cbv zeta. rewrite (bind_ok _ _ _ _ _ Hput).
  destruct (put_loop p data w1) as (w' & -> & Hcalls & Hcache). by simpl.
Qed.

Lemma put_trace_witness :
  (put "loc" [(KStr "x", sample_int32); (KTuple [], sample_float64);
              (KStr "y", sample_int32)] core_put [] empty_world).1
  = Raise IndexError /\
  calls (put "loc" [(KStr "x", sample_int32); (KTuple [], sample_float64);
                    (KStr "y", sample_int32)] core_put [] empty_world).2
  = [CallPut "loc" [(KStr "x", tobytes sample_int32);
                    (KTuple [], tobytes sample_float64);
                    (KStr "y", tobytes sample_int32)] [];
     CallEnsure "loc" (KStr "x.dtype") "int32"].
Proof.
  destruct (put_trace "loc"
              [(KStr "x", sample_int32); (KTuple [], sample_float64);
               (KStr "y", sample_int32)] core_put [] empty_world
              (core_put "loc"
                 [(KStr "x", tobytes sample_int32);
                  (KTuple [], tobytes sample_float64);
                  (KStr "y", tobytes sample_int32)] [] empty_world).2
              eq_refl) as (Hr & Hc & _).
  split; [exact Hr | exact Hc].
Defined.

(** X10.  What [get] returns, for any read function.  When [get]
    returns, the read function returned a list of buffers and [dtypes]
    a list of descriptors, and the result pairs them in order up to the
    end of the shorter list: the array at each position holds exactly
    the buffer at that position, has the descriptor at that position,
    and is flat, with as many items as fit its buffer, whatever shape
    was stored.  With as many descriptors as buffers, the arrays hold
    exactly the buffers that were read. *)
Theorem get_flat_views (p : path) (keys : pyseq) (get_f : get_fn)
    (kw : kwargs) (w w' : world) (arrs : list ndarray) :
  get p keys get_f kw w = (Ok arrs, w') ->
  exists bytes dts w1,
    get_f p keys kw w = (Ok bytes, w1) /\
    dtypes p keys get_f (lock_of kw) (without_lock kw) w1 = (Ok dts, w') /\
    length arrs = min (length bytes) (length dts) /\
    map tobytes arrs = take (length arrs) bytes /\
    map arr_dtype arrs = take (length arrs) dts /\
    Forall (fun a =>
      arr_shape a = [String.length (arr_data a) / itemsize (arr_dtype a)]) arrs /\
    (length dts = length bytes -> map tobytes arrs = bytes).
Proof.
  unfold get, bind. intros H.
  destruct (get_f p keys kw w) as [[bytes|e] w1]; [|discriminate].
  destruct (dtypes p keys get_f (lock_of kw) (without_lock kw) w1)
    as [[dts|e] w2] eqn:Hdt; [|discriminate].
  unfold lift in H. injection H as H <-.
  apply map2r_frombuffer in H as (Hlen & Hb & Hd & Hs).
  rewrite length_map in Hlen.
  exists bytes, dts, w1. repeat split; try done.
  - by apply Forall2_np_dtype_PDtype.
  - intros E. rewrite Hb, Hlen, E, Nat.min_id. apply firstn_all.
Qed.

Lemma get_flat_views_witness :
  exists bytes dts,
    (core_get "loc" (PyList [KStr "x"]) [] world_after_put).1 = Ok bytes /\
    map tobytes [NdArray [2] (DPrim (PInt W4 Little)) "abcdefgh"] = take 1 bytes /\
    map arr_dtype [NdArray [2] (DPrim (PInt W4 Little)) "abcdefgh"] = take 1 dts.
Proof.
  destruct (get_flat_views "loc" (PyList [KStr "x"]) core_get [] world_after_put
              (get "loc" (PyList [KStr "x"]) core_get [] world_after_put).2
              [NdArray [2] (DPrim (PInt W4 Little)) "abcdefgh"])
    as (bytes & dts & w1 & Hget & _ & _ & Hb & Hd & _).
  - vm_compute. reflexivity.
  - exists bytes, dts. rewrite Hget. by repeat split.
Defined.

(** X11.  [get] reads the data before it looks at the keys: with a key
    that is or ends in an empty tuple and nothing cached, the read of
    the data is made and returns, and [get] then raises [IndexError]
    without reading any metadata. *)
Theorem get_unextendable (p : path) (keys : pyseq) (get_f : get_fn)
    (kw : kwargs) (w w1 : world) (bytes : list string) :
  get_f p keys kw w = (Ok bytes, w1) ->
  cache w1 !! (p, items keys) = None ->
  Exists (fun k => last_leaf k = None) (items keys) ->
  get p keys get_f kw w = (Raise IndexError, w1).
Proof.
  intros Hget Hc Hk. unfold get. rewrite (bind_ok _ _ _ _ _ Hget).
  unfold bind, dtypes, dtypes_body. rewrite Hc. run.
  by rewrite (rmap_extend_raise _ _ Hk).
Qed.

Lemma get_unextendable_witness :
  get "loc" (PyList [KTuple []]) core_get [] world_after_put_empty_tuple
  = (Raise IndexError,
     (core_get "loc" (PyList [KTuple []]) [] world_after_put_empty_tuple).2).
Proof.
  apply (get_unextendable "loc" (PyList [KTuple []]) core_get []
           world_after_put_empty_tuple _ ["abcdefgh"]).
  - vm_compute. reflexivity.
  - vm_compute. reflexivity.
  - left. reflexivity.
Defined.

(** X12.  What [_get] returns, for any handle.  When [_get] returns,
    the first read returned a list of buffers and the second read, of
    the extended keys, a list of strings, and the result pairs them in
    order up to the end of the shorter list: the array at each position
    holds exactly the buffer at that position, has the descriptor that
    [np.dtype] makes of the string at that position, and is flat.  With
    as many strings as buffers, the arrays hold exactly the buffers
    that were read. *)
Theorem _get_flat_views (self : PartdNumpy) (keys : pyseq) (kw : kwargs)
    (w w' : world) (arrs : list ndarray) :
  _get self keys kw w = (Ok arrs, w') ->
  exists bytes dt_keys texts w1,
    h_get (partd self) keys kw w = (Ok bytes, w1) /\
    rmap (fun k => extend k ".dtype") (items keys) = Ok dt_keys /\
    h_get (partd self) (PyList dt_keys) [("lock", PBoolean false)] w1
    = (Ok texts, w') /\
    length arrs = min (length bytes) (length texts) /\
    map tobytes arrs = take (length arrs) bytes /\
    Forall2 (fun a t => np_dtype (PStr t) = Ok (arr_dtype a)) arrs
      (take (length arrs) texts) /\
    Forall (fun a =>
      arr_shape a = [String.length (arr_data a) / itemsize (arr_dtype a)]) arrs /\
    (length texts = length bytes -> map tobytes arrs = bytes).
Proof.
  unfold _get, bind. intros H.
  destruct (h_get (partd self) keys kw w) as [[bytes|e] w1]; [|discriminate].
  unfold lift in H.
  destruct (rmap _ (items keys)) as [mks|e] eqn:Hext; [|discriminate].
  destruct (h_get (partd self) (PyList mks) _ w1) as [[texts|e] w2] eqn:Ht;
    [|discriminate].
  injection H as H <-.
  apply map2r_frombuffer in H as (Hlen & Hb & Hd & Hs).
  rewrite length_map in Hlen.
  exists bytes, mks, texts, w1. repeat split; try done.
  - rewrite firstn_map in Hd.
    change (map PStr (take (length arrs) texts))
      with (PStr <$> take (length arrs) texts) in Hd.
    by apply Forall2_fmap_r in Hd.
  - intros E. rewrite Hb, Hlen, E, Nat.min_id. apply firstn_all.
Qed.

Lemma _get_flat_views_witness :
  exists bytes texts,
    (h_get (store_handle "loc") (PyList [KStr "x"]) [] world_after_append).1
    = Ok bytes /\
    map tobytes [NdArray [2] (DPrim (PInt W4 Little)) "abcdefgh"] = take 1 bytes /\
    Forall2 (fun a t => np_dtype (PStr t) = Ok (arr_dtype a))
      [NdArray [2] (DPrim (PInt W4 Little)) "abcdefgh"] (take 1 texts).
Proof.
  destruct (_get_flat_views (MkPartdNumpy (store_handle "loc"))
              (PyList [KStr "x"]) [] world_after_append
              (_get (MkPartdNumpy (store_handle "loc")) (PyList [KStr "x"]) []
                 world_after_append).2
              [NdArray [2] (DPrim (PInt W4 Little)) "abcdefgh"])
    as (bytes & mks & texts & w1 & Hget & _ & _ & _ & Hb & Hd & _).
  - vm_compute. reflexivity.
  - exists bytes, texts. cbn [partd] in Hget. rewrite Hget. by repeat split.
Defined.

(** X13.  [_get] with a key that is or ends in an empty tuple: the
    data is read, the extension of the keys then raises [IndexError],
    and the second read is never made. *)
Theorem _get_unextendable (self : PartdNumpy) (keys : pyseq) (kw : kwargs)
    (w w1 : world) (bytes : list string) :
  h_get (partd self) keys kw w = (Ok bytes, w1) ->
  Exists (fun k => last_leaf k = None) (items keys) ->
  _get self keys kw w = (Raise IndexError, w1).
Proof.
  intros Hget Hk. unfold _get. rewrite (bind_ok _ _ _ _ _ Hget).
  unfold bind, lift. by rewrite (rmap_extend_raise _ _ Hk).
Qed.

Lemma _get_unextendable_witness :
  _get (MkPartdNumpy (store_handle "loc")) (PyList [KTuple []]) []
    world_after_put_empty_tuple
  = (Raise IndexError,
     (core_get "loc" (PyList [KTuple []]) [] world_after_put_empty_tuple).2).
Proof.
  apply (_get_unextendable (MkPartdNumpy (store_handle "loc"))
           (PyList [KTuple []]) [] world_after_put_empty_tuple _ ["abcdefgh"]).
  - vm_compute. reflexivity.
  - left. reflexivity.
Defined.

(** X14.  [delete] with a key that is or ends in an empty tuple raises
    [IndexError] before the handle is called: nothing is removed, for
    any handle and any other keys in the sequence. *)
Theorem delete_unextendable (self : PartdNumpy) (keys : pyseq) (kw : kwargs)
    (w : world) :
  Exists (fun k => last_leaf k = None) (items keys) ->
  delete self keys kw w = (Raise IndexError, w).
Proof.
  intros Hk. unfold delete, bind, lift. by rewrite (rmap_extend_raise _ _ Hk).
Qed.

Lemma delete_unextendable_witness :
  delete (MkPartdNumpy (store_handle "loc"))
    (PyList [KStr "x"; KTuple [KStr "a"; KTuple []]]) [] world_after_append
  = (Raise IndexError, world_after_append).
Proof.
  apply (delete_unextendable (MkPartdNumpy (store_handle "loc"))
           (PyList [KStr "x"; KTuple [KStr "a"; KTuple []]])).
  right. left. reflexivity.
Defined.

(** ** The wrapper, for any handle and on the handle of a location *)

Section WrapperMore.
Implicit Types (p : path) (h : handle) (kw : kwargs) (w : world)
  (a : ndarray) (s : string).

(** A loop over a sequence that raises at one element: the elements
    before it have run, the ones after it have not. *)
Lemma for_each_prefix_raise {A B} (f : B -> A) (pre : list B) (x : A)
    (rest : list A) (bodyA : A -> M unit) (bodyB : B -> M unit) (e : exn) w :
  (forall b u, bodyA (f b) u = bodyB b u) ->
  (forall u, bodyA x u = (Raise e, u)) ->
  for_each (map f pre ++ x :: rest) bodyA w
  = match for_each pre bodyB w with
    | (Ok _, w1) => (Raise e, w1)
    | (Raise e', w1) => (Raise e', w1)
    end.
Proof.
  intros Hpre Hx. revert w. induction pre as [|b pre IH]; intros w; simpl.
  - unfold bind. by rewrite Hx.
  - unfold bind. rewrite Hpre. destruct (bodyB b w) as [[[]|e'] w1]; [|done].
    apply IH.
Qed.

(** The metadata loop of [append] over entries with string keys
    followed by an entry with a tuple key. *)
Lemma append_loop_prefix h (pre : list (string * ndarray)) (t : list key) a
    (rest : list (key * ndarray)) w :
  for_each (str_keys pre ++ (KTuple t, a) :: rest) (fun kv =>
    let* mk := lift (key_add kv.1 ".dtype") in
    h_iset h mk (dtype_str (arr_dtype kv.2))) w
  = match for_each pre (fun kv =>
            h_iset h (KStr (kv.1 +:+ ".dtype")) (dtype_str (arr_dtype kv.2))) w
    with
    | (Ok _, w1) => (Raise TypeError, w1)
    | (Raise e, w1) => (Raise e, w1)
    end.
Proof. unfold str_keys. by apply for_each_prefix_raise. Qed.

(** One entry with a string key appended on the handle of a
    location. *)
Lemma append_single p s a kw w :
  append (MkPartdNumpy (store_handle p)) [(KStr s, a)] kw w =
  (Ok tt,
   World (<[(p, KStr s) := default "" (store w !! (p, KStr s)) +:+ tobytes a]>
            (<[(p, KStr (s +:+ ".dtype")) := dtype_str (arr_dtype a)]> (store w)))
         (cache w)
         (calls w ++ [CallIset p (KStr (s +:+ ".dtype")) (dtype_str (arr_dtype a));
                      CallAppend p [(KStr s, tobytes a)] kw])).
Proof.
  assert (Hne : KStr (s +:+ ".dtype") <> KStr s)
    by (apply (extend_ne (KStr s) ".dtype"); [discriminate | reflexivity]).
  unfold append. run. rewrite lookup_insert_ne by congruence.
  by rewrite <-app_assoc.
Qed.

(** [np.frombuffer] with the rendering of a builtin descriptor, as
    [_get] calls it. *)
Lemma frombuffer_prim_str (buf : string) (pr : prim) :
  np_frombuffer buf (PStr (prim_str pr)) = np_frombuffer buf (PDtype (DPrim pr)).
Proof.
  unfold np_frombuffer. cbn [np_dtype]. by rewrite np_dtype_token_prim_str.
Qed.
End WrapperMore.

(** X15.  [append] stops at the first tuple key, for any handle: the
    descriptors of the entries before it, whose keys are strings, have
    been set, the sum [k + '.dtype'] then raises [TypeError], and no
    bytes are appended for any entry. *)
Theorem append_stops_at_tuple_key (h : handle) (pre : list (string * ndarray))
    (t : list key) (a : ndarray) (rest : list (key * ndarray)) (kw : kwargs)
    (w w1 : world) :
  for_each pre (fun kv =>
    h_iset h (KStr (kv.1 +:+ ".dtype")) (dtype_str (arr_dtype kv.2))) w
  = (Ok tt, w1) ->
  append (MkPartdNumpy h) (str_keys pre ++ (KTuple t, a) :: rest) kw w
  = (Raise TypeError, w1).
Proof.
  intros Hpre. unfold append. cbn [partd]. unfold bind at 1.
  by rewrite append_loop_prefix, Hpre.
Qed.

Lemma append_stops_at_tuple_key_witness :
  append (MkPartdNumpy (store_handle "loc"))
    [(KStr "x", sample_int32); (KTuple [KStr "a"; KStr "b"], sample_float64);
     (KStr "y", sample_int32)] [] empty_world
  = (Raise TypeError,
     World {[ ("loc", KStr "x.dtype") := "int32" ]} ∅
       [CallIset "loc" (KStr "x.dtype") "int32"]).
Proof.
  apply (append_stops_at_tuple_key (store_handle "loc") [("x", sample_int32)]
           [KStr "a"; KStr "b"] sample_float64 [(KStr "y", sample_int32)] []
           empty_world).
  reflexivity.
Defined.

Section WrapperRoundTrip.
Implicit Types (p : path) (kw : kwargs) (w : world) (a : ndarray)
  (s : string) (pr : prim).

(** The view over a buffer of [n] items. *)
Lemma frombuffer_items (buf : string) (d : dtype) (n : nat) :
  itemsize d <> 0 ->
  String.length buf = n * itemsize d ->
  np_frombuffer buf (PDtype d) = Ok (NdArray [n] d buf).
Proof.
  intros Hz Hlen. unfold np_frombuffer. cbn [np_dtype rbind].
  rewrite Hlen, Nat.Div0.mod_mul, Nat.div_mul by done.
  by destruct (Nat.eqb_spec (itemsize d) 0).
Qed.

(** Reading one string key back on the handle of a location, when the
    entry and its descriptor are there. *)
Lemma _get_single p s kw w (buf : string) pr :
  store w !! (p, KStr s) = Some buf ->
  store w !! (p, KStr (s +:+ ".dtype")) = Some (prim_str pr) ->
  (_get (MkPartdNumpy (store_handle p)) (PyList [KStr s]) kw w).1
  = rbind (np_frombuffer buf (PDtype (DPrim pr))) (fun v => Ok [v]).
Proof.
  intros Hb Ht.
  rewrite (_get_store_handle p (PyList [KStr s]) kw w [KStr (s +:+ ".dtype")]
             eq_refl [buf] [prim_str pr]).
  - cbn [fst map map2r]. rewrite frombuffer_prim_str.
    by destruct (np_frombuffer buf (PDtype (DPrim pr))).
  - simpl. by rewrite Hb.
  - simpl. by rewrite Ht.
Qed.
End WrapperRoundTrip.

(** X16.  The wrapper round trip for builtin descriptors, units
    included.  On the handle of a location, appending an array with a
    builtin descriptor under a string key that holds nothing yet and
    reading that key back gives one flat array with the bytes and the
    descriptor of the array: [_get] hands the stored string to
    [np.dtype], which also reads the renderings that [parse_dtype]
    rejects. *)
Theorem append_get_roundtrip (p : path) (s : string) (a : ndarray) (pr : prim)
    (kw kw' : kwargs) (w : world) :
  arr_dtype a = DPrim pr ->
  wf_array a ->
  store w !! (p, KStr s) = None ->
  exists w1,
    append (MkPartdNumpy (store_handle p)) [(KStr s, a)] kw w = (Ok tt, w1) /\
    (_get (MkPartdNumpy (store_handle p)) (PyList [KStr s]) kw' w1).1
    = Ok [NdArray [foldr Nat.mul 1 (arr_shape a)] (arr_dtype a) (tobytes a)].
Proof.
  intros Hd [Hz Hlen] Hfresh. rewrite append_single. eexists. split; [done|].
  rewrite (_get_single p s kw' _ (tobytes a) pr).
  - rewrite <-Hd. unfold tobytes. by rewrite (frombuffer_items _ _ _ Hz Hlen).
  - cbn [store]. by rewrite lookup_insert_eq, Hfresh.
  - cbn [store]. rewrite lookup_insert_ne, lookup_insert_eq, Hd; [done|].
    intros [= E]. apply (f_equal String.length) in E.
    rewrite string_app_length in E. simpl in E. lia.
Qed.

Lemma append_get_roundtrip_witness :
  exists w1,
    append (MkPartdNumpy (store_handle "loc"))
      [(KStr "t", NdArray [1] (DPrim (PDatetime (Some Uns) Little)) "ABCDEFGH")]
      [] empty_world = (Ok tt, w1) /\
    (_get (MkPartdNumpy (store_handle "loc")) (PyList [KStr "t"]) [] w1).1
    = Ok [NdArray [1] (DPrim (PDatetime (Some Uns) Little)) "ABCDEFGH"].
Proof.
  apply (append_get_roundtrip "loc" "t"
           (NdArray [1] (DPrim (PDatetime (Some Uns) Little)) "ABCDEFGH")
           (PDatetime (Some Uns) Little) [] [] empty_world).
  - reflexivity.
  - split; [discriminate | reflexivity].
  - reflexivity.
Defined.

(** X17.  [append] accumulates.  On the handle of a location, two
    appends of arrays with the same builtin descriptor under a fresh
    string key leave the bytes of the first followed by the bytes of
    the second, and reading the key back gives one flat array over
    both, with as many items as the two arrays together. *)
Theorem append_accumulates (p : path) (s : string) (a1 a2 : ndarray)
    (pr : prim) (kw1 kw2 kw' : kwargs) (w : world) :
  arr_dtype a1 = DPrim pr ->
  arr_dtype a2 = DPrim pr ->
  wf_array a1 ->
  wf_array a2 ->
  store w !! (p, KStr s) = None ->
  exists w1 w2,
    append (MkPartdNumpy (store_handle p)) [(KStr s, a1)] kw1 w = (Ok tt, w1) /\
    append (MkPartdNumpy (store_handle p)) [(KStr s, a2)] kw2 w1 = (Ok tt, w2) /\
    (_get (MkPartdNumpy (store_handle p)) (PyList [KStr s]) kw' w2).1
    = Ok [NdArray [foldr Nat.mul 1 (arr_shape a1) + foldr Nat.mul 1 (arr_shape a2)]
            (DPrim pr) (tobytes a1 +:+ tobytes a2)].
Proof.
  intros Hd1 Hd2 [Hz1 Hlen1] [Hz2 Hlen2] Hfresh.
  assert (Hne : (p, KStr s) <> (p, KStr (s +:+ ".dtype"))).
  { intros [= E]. apply (f_equal String.length) in E.
    rewrite string_app_length in E. simpl in E. lia. }
  rewrite append_single. eexists _, _. split; [done|].
  rewrite append_single. split; [done|].
  rewrite (_get_single p s kw' _ (tobytes a1 +:+ tobytes a2) pr).
  - rewrite (frombuffer_items _ _
               (foldr Nat.mul 1 (arr_shape a1) + foldr Nat.mul 1 (arr_shape a2)));
      [done | by rewrite <-Hd1 |].
    unfold tobytes. rewrite string_app_length, Hlen1, Hlen2, Hd1, Hd2. lia.
  - cbn [store]. by rewrite !lookup_insert_eq, Hfresh.
  - cbn [store]. rewrite lookup_insert_ne by done.
    by rewrite lookup_insert_eq, Hd2.
Qed.

Lemma append_accumulates_witness :
  exists w1 w2,
    append (MkPartdNumpy (store_handle "loc")) [(KStr "x", sample_int32)] []
      empty_world = (Ok tt, w1) /\
    append (MkPartdNumpy (store_handle "loc"))
      [(KStr "x", NdArray [1] (DPrim (PInt W4 Little)) "ijkl")] [] w1
    = (Ok tt, w2) /\
    (_get (MkPartdNumpy (store_handle "loc")) (PyList [KStr "x"]) [] w2).1
    = Ok [NdArray [3] (DPrim (PInt W4 Little)) "abcdefghijkl"].
Proof.
  apply (append_accumulates "loc" "x" sample_int32
           (NdArray [1] (DPrim (PInt W4 Little)) "ijkl") (PInt W4 Little)
           [] [] [] empty_world).
  - reflexivity.
  - reflexivity.
  - split; [discriminate | reflexivity].
  - split; [discriminate | reflexivity].
  - reflexivity.
Defined.

(** ** The layout of the store after [put] *)

Section Layout.
Implicit Types (p q : path) (k : key) (m : gmap (path * key) string)
  (l : list (key * string)) (w : world).

Lemma foldl_insert_notin p l m q k :
  q <> p \/ k ∉ map fst l ->
  foldl (fun m kv => <[(p, kv.1) := kv.2]> m) m l !! (q, k) = m !! (q, k).
Proof.
  revert m. induction l as [|[k0 v0] l IH]; intros m H; [done|].
  simpl. rewrite IH.
  - apply lookup_insert_ne. intros [= -> ->].
    destruct H as [H|H]; [done|]. apply H. simpl. left.
  - destruct H as [H|H]; [by left|]. right. intros Hk. apply H. simpl. by right.
Qed.

Lemma foldl_insert_in p l m k (v : string) :
  NoDup (map fst l) -> (k, v) ∈ l ->
  foldl (fun m kv => <[(p, kv.1) := kv.2]> m) m l !! (p, k) = Some v.
Proof.
  revert m. induction l as [|[k0 v0] l IH]; intros m Hnd Hin.
  - by apply elem_of_nil in Hin.
  - simpl in Hnd. apply NoDup_cons in Hnd as [Hk0 Hnd].
    apply elem_of_cons in Hin as [[= -> ->]|Hin]; simpl.
    + rewrite foldl_insert_notin by (by right). apply lookup_insert_eq.
    + by apply IH.
Qed.

(** The metadata loop of [put] when every key can be extended. *)
Lemma put_loop_store p (data : list (key * ndarray)) (mks : list key) w :
  rmap (fun kv => extend kv.1 ".dtype") data = Ok mks ->
  exists w',
    for_each data (fun kv =>
      let* mk := lift (extend kv.1 ".dtype") in
      core_ensure p mk (dtype_str (arr_dtype kv.2))) w = (Ok tt, w') /\
    store w' =
      foldl (fun m kv => <[(p, kv.1) := kv.2]> m) (store w)
        (zip mks (map (fun kv => dtype_str (arr_dtype kv.2)) data)).
Proof.
  intros H. set (body := fun kv : key * ndarray => _).
  assert (Hbody : forall kv u mk, extend kv.1 ".dtype" = Ok mk ->
    body kv u =
    (Ok tt, World (<[(p, mk) := dtype_str (arr_dtype kv.2)]> (store u))
              (cache u)
              (calls u ++ [CallEnsure p mk (dtype_str (arr_dtype kv.2))]))).
  { intros kv u mk E. unfold body. run. by rewrite E. }
  clearbody body. revert w mks H.
  induction data as [|[k a] data IH]; intros w mks H; simpl in H.
  - injection H as <-. by exists w.
  - apply rbind_ok in H as (mk & Hmk & H).
    apply rbind_ok in H as (mks' & Hmks & [= <-]).
    cbn [for_each]. unfold bind. rewrite (Hbody (k, a) w mk Hmk).
    match goal with |- context [for_each data body ?w1] =>
      destruct (IH w1 mks' Hmks) as (w' & -> & Hstore) end.
    exists w'. split; [done|]. by rewrite Hstore.
Qed.

Lemma map_fst_bytes (data : list (key * ndarray)) :
  map fst (map (fun kv => (kv.1, tobytes kv.2)) data) = map fst data.
Proof. induction data as [|kv data IH]; simpl; [done | by rewrite IH]. Qed.

Lemma map_fst_zip {A B} (xs : list A) (ys : list B) :
  length xs = length ys -> map fst (zip xs ys) = xs.
Proof.
  revert ys. induction xs as [|x xs IH]; intros [|y ys] H; simpl in *;
    try done. by rewrite IH by lia.
Qed.
End Layout.

(** X18.  The layout of the store after [put] of several arrays with
    the store functions of the module.  When the keys are distinct,
    every key can be extended, the extended keys are distinct and none
    of them is a key of the mapping, [put] returns, every key holds the
    bytes of its array, every extended key holds the rendering of the
    descriptor of its array, and no other entry of the store has
    changed. *)
Theorem put_layout (p : path) (data : list (key * ndarray)) (kw : kwargs)
    (w : world) (mks : list key) :
  NoDup (map fst data) ->
  rmap (fun kv => extend kv.1 ".dtype") data = Ok mks ->
  NoDup mks ->
  (forall k, k ∈ map fst data -> k ∉ mks) ->
  exists w',
    put p data core_put kw w = (Ok tt, w') /\
    (forall i k a mk,
        data !! i = Some (k, a) -> mks !! i = Some mk ->
        store w' !! (p, k) = Some (tobytes a) /\
        store w' !! (p, mk) = Some (dtype_str (arr_dtype a))) /\
    (forall q k,
        q <> p \/ ((k ∉ map fst data) /\ (k ∉ mks)) ->
        store w' !! (q, k) = store w !! (q, k)).
Proof.
  intros Hnd Hext Hndm Hdisj.
  pose proof (rmap_length _ _ _ Hext) as Hlen.
  assert (Hz : map fst (zip mks (map (fun kv => dtype_str (arr_dtype kv.2)) data))
               = mks) by (apply map_fst_zip; by rewrite length_map).
  unfold put. cbv zeta. unfold bind at 1. unfold core_put at 1.
  match goal with |- context [for_each data _ ?w1] =>
    destruct (put_loop_store p data mks w1 Hext) as (w' & -> & Hstore) end.
  exists w'. split; [done|]. rewrite Hstore. cbn [log set_store store].
  split.
  - intros i k a mk Hi Hm. split.
    + rewrite foldl_insert_notin.
      * apply foldl_insert_in; [by rewrite map_fst_bytes|].
        apply (list_elem_of_lookup_2 _ i).
        change (map (fun kv : key * ndarray => (kv.1, tobytes kv.2)) data)
          with ((fun kv : key * ndarray => (kv.1, tobytes kv.2)) <$> data).
        by rewrite list_lookup_fmap, Hi.
      * right. rewrite Hz. apply Hdisj.
        apply (list_elem_of_lookup_2 _ i).
        change (map fst data) with (fst <$> data).
        by rewrite list_lookup_fmap, Hi.
    + apply foldl_insert_in; [by rewrite Hz|].
      apply (list_elem_of_lookup_2 _ i).
      apply lookup_zip_with_Some. exists mk, (dtype_str (arr_dtype a)).
      split; [done|]. split; [done|].
      change (map (fun kv : key * ndarray => dtype_str (arr_dtype kv.2)) data)
        with ((fun kv : key * ndarray => dtype_str (arr_dtype kv.2)) <$> data).
      by rewrite list_lookup_fmap, Hi.
  - intros q k H. rewrite !foldl_insert_notin; [done| |].
    + destruct H as [H|[H _]]; [by left|]. right. by rewrite map_fst_bytes.
    + destruct H as [H|[_ H]]; [by left|]. right. by rewrite Hz.
Qed.

Lemma put_layout_witness :
  exists w',
    put "loc" [(KStr "x", sample_int32); (KTuple [KStr "a"; KStr "b"], sample_float64)]
      core_put [] empty_world = (Ok tt, w') /\
    store w' !! ("loc", KTuple [KStr "a"; KStr "b"]) = Some "ABCDEFGH" /\
    store w' !! ("loc", KTuple [KStr "a"; KStr "b.dtype"]) = Some "float64".
Proof.
  destruct (put_layout "loc"
              [(KStr "x", sample_int32);
               (KTuple [KStr "a"; KStr "b"], sample_float64)] [] empty_world
              [KStr "x.dtype"; KTuple [KStr "a"; KStr "b.dtype"]])
    as (w' & Hput & Hin & _).
  - by apply (bool_decide_unpack _).
  - reflexivity.
  - by apply (bool_decide_unpack _).
  - apply Forall_forall. by apply (bool_decide_unpack _).
  - exists w'. split; [exact Hput|].
    exact (Hin 1 (KTuple [KStr "a"; KStr "b"]) sample_float64
             (KTuple [KStr "a"; KStr "b.dtype"]) eq_refl eq_refl).
Defined.
